(** * OpenAirframes: community-submission schema engine

    A shallow embedding of [src/contributions/update_schema.py],
    [src/contributions/schema.py] and the schema-writing step of
    [src/contributions/regenerate_pr_schema.py], with the properties of the
    schema evolution and validation engine stated and proved over it.

    Conventions.
    - A Python [str] is a [string]: a sequence of characters with code points
      below 256.  Comparison is by code point, as in Python.
    - A decoded JSON document (what [json.load] returns) is a [json] tree.  A
      Python [dict] keeps its insertion order, so an object is an association
      list whose keys are pairwise distinct.
    - A Python exception is a value of [exn]; a computation that may raise
      returns a [result].
    - The schema directory is a finite map from version numbers to
      documents, threaded through the functions that read or write it.
    - [re] is embedded as a backtracking matcher over the syntax that the
      patterns of the repository use; the patterns are kept as text and
      compiled.
    - Object identity (needed for "deep copy") is modelled by a heap of
      [dict] and [list] objects, in module [Py].

    Layout: the embedding; the vocabulary of the statements; the proofs. *)

From Stdlib Require Import ZArith String Ascii List Bool Lia DecimalString OrdersEx.
From stdpp Require Import base option list sorting gmap strings.

Open Scope Z_scope.

(** ** Python values and exceptions *)

Unset Elimination Schemes.
Inductive json : Type :=
| JNull
| JBool (b : bool)
| JInt (z : Z)
| JFloat (bits : Z)      (* a non-integral number, carried as an opaque payload *)
| JStr (s : string)
| JArray (xs : list json)
| JObject (kvs : list (string * json)).
Set Elimination Schemes.

Inductive exn : Type :=
| KeyError (key : string)
| TypeError
| AttributeError
| ValueError
| RecursionError
| ImportError
| NotFoundError.

Inductive result (A : Type) : Type :=
| Ok (a : A)
| Raise (e : exn).
Arguments Ok {A} a.
Arguments Raise {A} e.

(** The exception monad, with stdpp's [x ← m; k] notation. *)
#[global] Instance result_ret : MRet result := fun A a => Ok a.
#[global] Instance result_bind : MBind result := fun A B k m =>
  match m with
  | Ok a => k a
  | Raise e => Raise e
  end.

(** [str(n)] for an integer. *)
Definition str_of_Z (n : Z) : string := NilZero.string_of_int (Z.to_int n).

(** ** Dictionaries (insertion ordered) *)

Section Dict.
Context {V : Type}.

(** [d.get(k)] *)
Fixpoint dict_get (k : string) (d : list (string * V)) : option V :=
  match d with
  | [] => None
  | (k', v) :: d' => if String.eqb k k' then Some v else dict_get k d'
  end.

(** [k in d] *)
Definition dict_mem (k : string) (d : list (string * V)) : bool :=
  match dict_get k d with Some _ => true | None => false end.

(** [d[k] = v]: an existing key keeps its position, a new key goes last. *)
Fixpoint dict_set (k : string) (v : V) (d : list (string * V)) : list (string * V) :=
  match d with
  | [] => [(k, v)]
  | (k', v') :: d' =>
      if String.eqb k k' then (k, v) :: d' else (k', v') :: dict_set k v d'
  end.

Definition keys (d : list (string * V)) : list string := d.*1.
End Dict.

(** ** [update_schema.py] *)

(** [d.get(key, default)] where [d] is expected to be a [dict]; any other
    JSON value has no [get] attribute. *)
Definition py_get (d : json) (key : string) (default : json) : result json :=
  match d with
  | JObject kvs =>
      Ok (match dict_get key kvs with Some v => v | None => default end)
  | _ => Raise AttributeError
  end.

Definition get_existing_tag_definitions (schema : json) : result json :=
  props ← py_get schema "properties" (JObject []);
  tags ← py_get props "tags" (JObject []);
  py_get tags "properties" (JObject []).

Definition ref (target : string) : json := JObject [("$ref", JStr target)].

Definition type_map : list (string * json) :=
  [ ("string", JObject [("type", JStr "string")]);
    ("integer", JObject [("type", JStr "integer")]);
    ("number", JObject [("type", JStr "number")]);
    ("boolean", JObject [("type", JStr "boolean")]);
    ("null", JObject [("type", JStr "null")]);
    ("array", JObject [("type", JStr "array"); ("items", ref "#/$defs/tagScalar")]);
    ("object", JObject [("type", JStr "object");
                        ("additionalProperties", ref "#/$defs/tagScalar")]) ].

Definition type_name_to_json_schema (type_name : string) : json :=
  match dict_get type_name type_map with
  | Some v => v
  | None => ref "#/$defs/tagValue"
  end.

(** Tuples [(tag_name, type_name)] compare lexicographically. *)
Definition item_ltb (a b : string * string) : bool :=
  match String.compare (fst a) (fst b) with
  | Lt => true
  | Eq => String.ltb (snd a) (snd b)
  | Gt => false
  end.

(** [sorted]: a stable sort that only asks [<].  Each element is placed
    before the first element that is strictly greater. *)
Fixpoint sort_insert (x : string * string) (l : list (string * string)) :=
  match l with
  | [] => [x]
  | y :: l' => if item_ltb x y then x :: y :: l' else y :: sort_insert x l'
  end.

Definition sorted (l : list (string * string)) : list (string * string) :=
  fold_left (fun acc x => sort_insert x acc) l [].

Definition schema_title (new_version : Z) : string :=
  "PlaneQuery Aircraft Community Submission (v" +:+ str_of_Z new_version +:+ ")".

Definition tag_name_pattern : string := "^[a-z][a-z0-9_]{0,63}$".

(** The [for] loop of [generate_new_schema] that fills [tag_properties]. *)
Definition build_tag_properties (tag_registry : list (string * string)) : list (string * json) :=
  fold_left (fun tag_properties '(tag_name, type_name) =>
               dict_set tag_name (type_name_to_json_schema type_name) tag_properties)
            (sorted tag_registry) [].

Definition tags_definition (tag_properties : list (string * json)) : json :=
  JObject
    [ ("type", JStr "object");
      ("description",
        JStr "Community-defined tags. New tags can be added, but must use consistent types.");
      ("propertyNames", JObject [("type", JStr "string"); ("pattern", JStr tag_name_pattern)]);
      ("properties", JObject tag_properties);
      ("additionalProperties", ref "#/$defs/tagValue") ].

(** [schema[key] = value] on the copied document. *)
Definition py_setitem (d : json) (key : string) (value : json) : result json :=
  match d with
  | JObject kvs => Ok (JObject (dict_set key value kvs))
  | _ => Raise TypeError
  end.

(** [d[key]] *)
Definition py_getitem (d : json) (key : string) : result json :=
  match d with
  | JObject kvs =>
      match dict_get key kvs with
      | Some v => Ok v
      | None => Raise (KeyError key)
      end
  | _ => Raise TypeError
  end.

(** On values, [json.loads(json.dumps(base_schema))] gives back the document
    it was given; what the copy means for object identity is the subject of
    the heap model further down.

    [schema["properties"]["tags"] = ...] updates the nested dictionary in
    place, hence the document that holds it. *)
Definition generate_new_schema
    (base_schema : json) (tag_registry : list (string * string)) (new_version : Z)
  : result json :=
  let schema := base_schema in
  schema ← py_setitem schema "title" (JStr (schema_title new_version));
  let tag_properties := build_tag_properties tag_registry in
  properties ← py_getitem schema "properties";
  properties ← py_setitem properties "tags" (tags_definition tag_properties);
  py_setitem schema "properties" properties.

(** [needle in hay] for two strings: substring test. *)
Fixpoint is_substring (needle hay : string) : bool :=
  String.prefix needle hay ||
  match hay with
  | EmptyString => false
  | String _ hay' => is_substring needle hay'
  end.

(** [tag in container].  A dictionary is searched by key, a list by element,
    a string by substring; the other JSON values are not iterable. *)
Definition py_contains (container : json) (tag : string) : result bool :=
  match container with
  | JObject kvs => Ok (dict_mem tag kvs)
  | JArray xs =>
      Ok (existsb (fun x => match x with JStr s => String.eqb s tag | _ => false end) xs)
  | JStr s => Ok (is_substring tag s)
  | _ => Raise TypeError
  end.

(** [[tag for tag in tags if tag not in existing_tags]] *)
Fixpoint tags_not_in (existing_tags : json) (tags : list string) : result (list string) :=
  match tags with
  | [] => Ok []
  | tag :: tags' =>
      present ← py_contains existing_tags tag;
      rest ← tags_not_in existing_tags tags';
      Ok (if (present : bool) then rest else tag :: rest)
  end.

Definition check_for_new_tags (tag_registry : list (string * string)) (current_schema : json)
  : result (list string) :=
  existing_tags ← get_existing_tag_definitions current_schema;
  tags_not_in existing_tags (keys tag_registry).

(** ** The schema directory *)

(** The schema directory holds one document per version number; the file of
    version [v] is [community_submission.v{v}.schema.json], so the directory
    is a finite map from version numbers to documents.  The text of a file is
    [json.dump(document, indent=2)], a function of the document. *)
Abbreviation store := (gmap Z json).

(** Modelled from the spec: [get_latest_schema_version], imported from
    [.schema] but absent from the sources at hand.  It "returns the greatest
    version number among persisted schema documents; fails with
    [NotFoundError] if none exist". *)
Definition get_latest_schema_version (st : store) : result Z :=
  match elements (dom st) with
  | [] => Raise NotFoundError
  | v :: vs => Ok (fold_right Z.max v vs)
  end.

(** Modelled from the spec: [load_schema(version)], imported from [.schema]
    but absent from the sources at hand.  It "fails with [NotFoundError] if
    the requested version does not exist"; without an argument it loads the
    latest version. *)
Definition load_schema (version : option Z) (st : store) : result json :=
  v ← match version with
      | Some v => Ok v
      | None => get_latest_schema_version st
      end;
  match st !! v with
  | Some doc => Ok doc
  | None => Raise NotFoundError
  end.

(** Modelled from the spec: [get_schema_path], imported from [.schema] but
    absent from the sources at hand.  Files are "named deterministically by
    version number", so a path is identified with its version. *)
Definition get_schema_path (version : Z) : Z := version.

(** [with open(path, "w") as f: json.dump(new_schema, f, indent=2)].  Mode
    ["w"] creates the file or truncates the one that is there. *)
Definition write_schema (path : Z) (new_schema : json) (st : store) : result unit * store :=
  (Ok tt, <[path := new_schema]> st).

(** [create_new_schema_version], with the schema directory threaded through.
    An exception leaves the directory as it was. *)
Definition create_new_schema_version
    (tag_registry : list (string * string)) (check_only : bool) (st : store)
  : result (option Z * list string) * store :=
  match get_latest_schema_version st with
  | Raise e => (Raise e, st)
  | Ok current_version =>
  match load_schema (Some current_version) st with
  | Raise e => (Raise e, st)
  | Ok current_schema =>
  match check_for_new_tags tag_registry current_schema with
  | Raise e => (Raise e, st)
  | Ok new_tags =>
      if bool_decide (new_tags = []) then (Ok (None, []), st)
      else if check_only then (Ok (Some (current_version + 1), new_tags), st)
      else
        let new_version := current_version + 1 in
        match generate_new_schema current_schema tag_registry new_version with
        | Raise e => (Raise e, st)
        | Ok new_schema =>
            let new_schema_path := get_schema_path new_version in
            match write_schema new_schema_path new_schema st with
            | (Raise e, st') => (Raise e, st')
            | (Ok _, st') => (Ok (Some new_version, new_tags), st')
            end
        end
  end end end.

(** ** [regenerate_pr_schema.py] *)

Section Regenerate.
(** [read_all_submissions] and [build_tag_type_registry] come from
    [read_community_data], which is outside the engine: the submissions read
    and the registry builder are parameters. *)
Variable submissions : list json.
Variable build_tag_type_registry : list json -> list (string * string).

Definition regenerate_pr_schema_main (st : store) : result unit * store :=
  match get_latest_schema_version st with
  | Raise e => (Raise e, st)
  | Ok current_version =>
  match load_schema None st with
  | Raise e => (Raise e, st)
  | Ok current_schema =>
  match get_existing_tag_definitions current_schema with
  | Raise e => (Raise e, st)
  | Ok _ =>
      if bool_decide (submissions = []) then (Ok tt, st)
      else
        let tag_registry := build_tag_type_registry submissions in
        match check_for_new_tags tag_registry current_schema with
        | Raise e => (Raise e, st)
        | Ok new_tags =>
            if bool_decide (new_tags = []) then (Ok tt, st)
            else
              let new_version := current_version + 1 in
              match generate_new_schema current_schema tag_registry new_version with
              | Raise e => (Raise e, st)
              | Ok new_schema => write_schema new_version new_schema st
              end
        end
  end end end.
End Regenerate.


(** ** Python's [re]: the fragment that the patterns of this repository use *)

Module Re.

(** [str.isspace] on one character, which is also what [\s] matches:
    tab to carriage return, the four separators 28..31, space, NEL and the
    no-break space. *)
Definition isspace (c : ascii) : bool :=
  let n := nat_of_ascii c in
  ((9 <=? n) && (n <=? 13) || (28 <=? n) && (n <=? 32) || (n =? 133) || (n =? 160))%nat.

Definition newline : ascii := "010"%char.

(** What may stand between brackets: [c], [lo-hi], [\s], [\S]. *)
Inductive set_item : Type :=
| SChar (c : ascii)
| SRange (lo hi : ascii)
| SSpace
| SNonSpace.

Definition item_matches (it : set_item) (c : ascii) : bool :=
  match it with
  | SChar c' => Ascii.eqb c c'
  | SRange lo hi => ((nat_of_ascii lo <=? nat_of_ascii c) && (nat_of_ascii c <=? nat_of_ascii hi))%nat
  | SSpace => isspace c
  | SNonSpace => negb (isspace c)
  end.

Definition in_set (items : list set_item) (c : ascii) : bool :=
  existsb (fun it => item_matches it c) items.

Inductive regex : Type :=
| Empty                                   (* matches the empty string *)
| Chars (items : list set_item)           (* one character: [c], [\s], [[...]] *)
| Seq (r1 r2 : regex)                     (* [r1r2] *)
| Alt (r1 r2 : regex)                     (* [r1|r2] *)
| Repeat (greedy : bool) (lo : nat) (hi : option nat) (items : list set_item)
                                          (* [x*], [x*?], [x{lo,hi}] on one-character [x] *)
| Group (r : regex)                       (* [(r)], the capturing group 1 *)
| Lookahead (r : regex)                   (* [(?=r)] *)
| Bol                                     (* [^] *)
| Eol.                                    (* [$] *)

(** A position of the matcher in the subject: the offset, the text from
    there on, and what group 1 has captured. *)
Record mstate : Type := MState { pos : nat; rest : string; group1 : option string }.

Section Repeat.
Variable greedy : bool.
Variable items : list set_item.
Variable k : nat → string → option mstate.

(** [x{lo,hi}]: a greedy repetition takes one more character before it
    tries the continuation, a lazy one tries the continuation first. *)
Fixpoint repeat_run (lo : nat) (hi : option nat) (pos : nat) (rest : string) : option mstate :=
  let more (_ : unit) :=
    match hi, rest with
    | Some O, _ => None
    | _, EmptyString => None
    | _, String c rest' =>
        if in_set items c
        then repeat_run (Nat.pred lo) (Nat.pred <$> hi) (S pos) rest'
        else None
    end in
  let stop (_ : unit) := match lo with O => k pos rest | S _ => None end in
  if greedy
  then match more () with Some m => Some m | None => stop () end
  else match stop () with Some m => Some m | None => more () end.
End Repeat.

(** The backtracking matcher: [run r st k] matches [r] at [st] and hands the
    position reached to [k]; when [k] fails, the next way of matching [r] is
    tried, in the order of preference of [re]. *)
Fixpoint run (r : regex) (st : mstate) (k : mstate → option mstate) : option mstate :=
  match r with
  | Empty => k st
  | Chars items =>
      match rest st with
      | String c rest' =>
          if in_set items c then k (MState (S (pos st)) rest' (group1 st)) else None
      | EmptyString => None
      end
  | Seq r1 r2 => run r1 st (fun st' => run r2 st' k)
  | Alt r1 r2 =>
      match run r1 st k with
      | Some m => Some m
      | None => run r2 st k
      end
  | Repeat greedy lo hi items =>
      repeat_run greedy items (fun p s => k (MState p s (group1 st))) lo hi (pos st) (rest st)
  | Group r =>
      run r st (fun st' =>
        k (MState (pos st') (rest st')
             (Some (String.substring 0 (pos st' - pos st) (rest st)))))
  | Lookahead r =>
      match run r st Some with
      | Some st' => k (MState (pos st) (rest st) (group1 st'))
      | None => None
      end
  | Bol => match pos st with O => k st | S _ => None end
  | Eol =>
      match rest st with
      | EmptyString => k st
      | String c EmptyString => if Ascii.eqb c newline then k st else None
      | _ => None
      end
  end.

(** A match object: where the match starts and ends, and [group(1)]. *)
Record rmatch : Type := RMatch { m_start : nat; m_end : nat; m_group1 : option string }.

Definition match_at (r : regex) (pos : nat) (rest : string) : option rmatch :=
  match run r (MState pos rest None) Some with
  | Some st => Some (RMatch pos (Re.pos st) (group1 st))
  | None => None
  end.

(** The scan of [re.search] from offset [pos] on: the leftmost position where
    the pattern matches wins. *)
Fixpoint search_from (r : regex) (pos : nat) (rest : string) : option rmatch :=
  match match_at r pos rest with
  | Some m => Some m
  | None =>
      match rest with
      | EmptyString => None
      | String _ rest' => search_from r (S pos) rest'
      end
  end.

(** [re.search(pattern, s)] *)
Definition search (r : regex) (s : string) : option rmatch := search_from r 0 s.

(** [re.finditer(pattern, s)]: the successive non-overlapping matches.  After
    a match the scan resumes where the match ended; [skip] counts the
    characters still to step over.  (The patterns it is used with never
    match the empty string.) *)
Fixpoint finditer_from (r : regex) (pos : nat) (rest : string) (skip : nat) : list rmatch :=
  match skip, rest with
  | S skip', String _ rest' => finditer_from r (S pos) rest' skip'
  | S _, EmptyString => []
  | O, _ =>
      match match_at r pos rest with
      | Some m =>
          m :: match rest with
               | EmptyString => []
               | String _ rest' => finditer_from r (S pos) rest' (m_end m - pos - 1)
               end
      | None =>
          match rest with
          | EmptyString => []
          | String _ rest' => finditer_from r (S pos) rest' 0
          end
      end
  end.

Definition finditer (r : regex) (s : string) : list rmatch := finditer_from r 0 s 0.

(** [m.group(1)]; a group that took no part in the match gives [None], which
    does not happen in the patterns below. *)
Definition group_1 (m : rmatch) : string := default "" (m_group1 m).

(** A sequence of expressions. *)
Fixpoint seq (rs : list regex) : regex :=
  match rs with
  | [] => Empty
  | [r] => r
  | r :: rs' => Seq r (seq rs')
  end.

End Re.

(** ** [str] methods *)

Fixpoint lstrip (s : string) : string :=
  match s with
  | EmptyString => EmptyString
  | String c s' => if Re.isspace c then lstrip s' else s
  end.

Fixpoint rstrip (s : string) : string :=
  match s with
  | EmptyString => EmptyString
  | String c s' =>
      match rstrip s' with
      | EmptyString => if Re.isspace c then EmptyString else String c EmptyString
      | t => String c t
      end
  end.

(** [s.strip()] *)
Definition strip (s : string) : string := rstrip (lstrip s).

(** [s.startswith(c)] and [s.endswith(c)] for a one-character [c]. *)
Definition startswith (s : string) (c : ascii) : bool :=
  match s with
  | String c' _ => Ascii.eqb c' c
  | EmptyString => false
  end.

Fixpoint endswith (s : string) (c : ascii) : bool :=
  match s with
  | EmptyString => false
  | String c' EmptyString => Ascii.eqb c' c
  | String _ s' => endswith s' c
  end.

(** ** Pattern syntax *)

Module ReSyntax.
Import Re.

Definition is_digit (c : ascii) : bool :=
  ((48 <=? nat_of_ascii c) && (nat_of_ascii c <=? 57))%nat.

(** A run of decimal digits, as a number. *)
Fixpoint parse_number (acc : nat) (s : string) : nat * string :=
  match s with
  | String c s' =>
      if is_digit c then parse_number (10 * acc + (nat_of_ascii c - 48)) s' else (acc, s)
  | EmptyString => (acc, s)
  end.

(** The character after a backslash. *)
Definition parse_escape (c : ascii) : option set_item :=
  if Ascii.eqb c "s" then Some SSpace
  else if Ascii.eqb c "S" then Some SNonSpace
  else if Ascii.eqb c "n" then Some (SChar newline)
  else if is_digit c then None
  else if ((65 <=? nat_of_ascii c) && (nat_of_ascii c <=? 90)
           || (97 <=? nat_of_ascii c) && (nat_of_ascii c <=? 122))%nat then None
  else Some (SChar c).

(** The inside of [[...]], up to the closing bracket. *)
Fixpoint parse_set (s : string) : option (list set_item * string) :=
  match s with
  | EmptyString => None
  | String c s' =>
      if Ascii.eqb c "]" then Some ([], s')
      else if Ascii.eqb c "\" then
        match s' with
        | String e s'' =>
            match parse_escape e, parse_set s'' with
            | Some it, Some (items, r) => Some (it :: items, r)
            | _, _ => None
            end
        | EmptyString => None
        end
      else
        match s' with
        | String d (String hi s'') =>
            if Ascii.eqb d "-" && negb (Ascii.eqb hi "]") then
              match parse_set s'' with
              | Some (items, r) => Some (SRange c hi :: items, r)
              | None => None
              end
            else
              match parse_set s' with
              | Some (items, r) => Some (SChar c :: items, r)
              | None => None
              end
        | _ =>
            match parse_set s' with
            | Some (items, r) => Some (SChar c :: items, r)
            | None => None
            end
        end
  end.

(** A quantifier, if one follows the atom [r]. *)
Definition parse_quantifier (r : regex) (s : string) : option (regex * string) :=
  let lazy_mark (s : string) : bool * string :=
    match s with
    | String c s' => if Ascii.eqb c "?" then (false, s') else (true, s)
    | EmptyString => (true, s)
    end in
  let repeat (lo : nat) (hi : option nat) (s : string) : option (regex * string) :=
    match r with
    | Chars items => let '(greedy, s') := lazy_mark s in Some (Repeat greedy lo hi items, s')
    | _ => None
    end in
  match s with
  | String c s' =>
      if Ascii.eqb c "*" then repeat 0%nat None s'
      else if Ascii.eqb c "+" then repeat 1%nat None s'
      else if Ascii.eqb c "?" then Some (Alt r Empty, s')
      else if Ascii.eqb c "{" then
        let '(lo, s1) := parse_number 0 s' in
        match s1 with
        | String comma s2 =>
            let '(hi, s3) := parse_number 0 s2 in
            match s3 with
            | String close s4 =>
                if Ascii.eqb comma "," && Ascii.eqb close "}" then repeat lo (Some hi) s4
                else Some (r, s)
            | EmptyString => Some (r, s)
            end
        | EmptyString => Some (r, s)
        end
      else Some (r, s)
  | EmptyString => Some (r, s)
  end.

(** Alternatives, sequences and atoms; [fuel] bounds the nesting and the
    length, and the length of the pattern is enough. *)
Fixpoint parse_alt (fuel : nat) (s : string) : option (regex * string) :=
  match fuel with
  | O => None
  | S fuel' =>
      let fix parse_seq (n : nat) (s : string) : option (list regex * string) :=
        match n with
        | O => None
        | S n' =>
            match s with
            | EmptyString => Some ([], s)
            | String c s' =>
                if Ascii.eqb c "|" || Ascii.eqb c ")" then Some ([], s)
                else
                  let atom : option (regex * string) :=
                    if Ascii.eqb c "(" then
                      let group (wrap : regex → regex) (body : string) :=
                        match parse_alt fuel' body with
                        | Some (r, String close rest) =>
                            if Ascii.eqb close ")" then Some (wrap r, rest) else None
                        | _ => None
                        end in
                      match s' with
                      | String q (String k body) =>
                          if Ascii.eqb q "?" then
                            if Ascii.eqb k ":" then group (fun r => r) body
                            else if Ascii.eqb k "=" then group Lookahead body
                            else None
                          else group Group s'
                      | _ => group Group s'
                      end
                    else if Ascii.eqb c "[" then
                      match parse_set s' with
                      | Some (items, rest) => Some (Chars items, rest)
                      | None => None
                      end
                    else if Ascii.eqb c "\" then
                      match s' with
                      | String e rest =>
                          match parse_escape e with
                          | Some it => Some (Chars [it], rest)
                          | None => None
                          end
                      | EmptyString => None
                      end
                    else if Ascii.eqb c "^" then Some (Bol, s')
                    else if Ascii.eqb c "$" then Some (Eol, s')
                    else if Ascii.eqb c "." || Ascii.eqb c "*" || Ascii.eqb c "+"
                            || Ascii.eqb c "?" then None
                    else Some (Chars [SChar c], s') in
                  match atom with
                  | None => None
                  | Some (r, rest) =>
                      match parse_quantifier r rest with
                      | None => None
                      | Some (r', rest') =>
                          match parse_seq n' rest' with
                          | Some (rs, rest'') => Some (r' :: rs, rest'')
                          | None => None
                          end
                      end
                  end
            end
        end in
      match parse_seq fuel' s with
      | None => None
      | Some (rs, String c rest) =>
          if Ascii.eqb c "|" then
            match parse_alt fuel' rest with
            | Some (r2, rest') => Some (Alt (seq rs) r2, rest')
            | None => None
            end
          else Some (seq rs, String c rest)
      | Some (rs, EmptyString) => Some (seq rs, EmptyString)
      end
  end.

(** [re.compile(pattern)], for the syntax above; [None] for a pattern
    outside it. *)
Definition compile (pattern : string) : option regex :=
  match parse_alt (2 + String.length pattern) pattern with
  | Some (r, EmptyString) => Some r
  | _ => None
  end.

End ReSyntax.

(** [re.search(pattern, s)] and [re.finditer(pattern, s)] on a pattern
    given as text.  (The patterns of this repository all compile.) *)
Definition re_search (pattern : string) (s : string) : option Re.rmatch :=
  match ReSyntax.compile pattern with
  | Some r => Re.search r s
  | None => None
  end.

Definition re_finditer (pattern : string) (s : string) : list Re.rmatch :=
  match ReSyntax.compile pattern with
  | Some r => Re.finditer r s
  | None => []
  end.

(** ** [schema.py]: validation *)

(** An error of the [jsonschema] package: [error.path] lists the object keys
    and array indices that lead to the offending value, [error.message]
    describes the violation. *)
Inductive path_elem : Type :=
| PKey (name : string)
| PIndex (i : Z).

Record validation_error : Type := { path : list path_elem; message : string }.

(** [str(p)] for a path element. *)
Definition str_of_path_elem (p : path_elem) : string :=
  match p with
  | PKey name => name
  | PIndex i => str_of_Z i
  end.

Module Schema.
Section Validator.
(** What [schema.py] takes from outside the repository:
    - [Draft202012Validator], the validator class of [jsonschema]
      ([None] when the import failed), as the function from a schema and
      an instance to the errors that [iter_errors] yields;
    - the document stored at [SCHEMA_PATH], or the exception that reading
      it raises;
    - [json.loads], which returns the decoded value or raises
      [JSONDecodeError] with a message. *)
Variable Draft202012Validator : option (json → json → list validation_error).
Variable schema_file : result json.
Variable json_loads : string → json + string.

Definition load_schema : result json := schema_file.

Definition validate_submission (data : json) (schema : option json) : result (list string) :=
  match Draft202012Validator with
  | None => Raise ImportError
  | Some iter_errors =>
      schema ← match schema with
               | None => load_schema
               | Some schema => Ok schema
               end;
      let submissions := match data with JArray xs => xs | _ => [data] end in
      Ok (mjoin (imap (fun i submission =>
            let prefix :=
              if decide (1 < length submissions)%nat
              then "[" +:+ str_of_Z (Z.of_nat i) +:+ "] "
              else "" in
            (fun error =>
               let path :=
                 match path error with
                 | [] => "(root)"
                 | _ => String.concat "." (str_of_path_elem <$> path error)
                 end in
               prefix +:+ path +:+ ": " +:+ message error)
            <$> iter_errors schema submission) submissions))
  end.

(** Python's [None] is [JNull]. *)
Definition parse_and_validate (json_str : string) (schema : option json)
  : result (json * list string) :=
  match json_loads json_str with
  | inr e => Ok (JNull, ["Invalid JSON: " +:+ e])
  | inl data =>
      errors ← validate_submission data schema;
      Ok (data, errors)
  end.
End Validator.

(** *** Extraction from an issue body *)

Import Re.

Definition pattern_codeblock : string :=
  "### Submission JSON\s*\n\s*```(?:json)?\s*\n([\s\S]*?)\n\s*```".

Definition pattern_raw : string :=
  "### Submission JSON\s*\n\s*([\[{][\s\S]*?[\]}])(?=\n###|\n\n###|$)".

Definition pattern_any : string := "([\[{][\s\S]*?[\]}])".

(** The three attempts of [extract_json_from_issue_body], one by one. *)
Definition try_codeblock (body : string) : option string :=
  match re_search pattern_codeblock body with
  | Some m => Some (strip (group_1 m))
  | None => None
  end.

Definition try_raw (body : string) : option string :=
  match re_search pattern_raw body with
  | Some m => Some (strip (group_1 m))
  | None => None
  end.

(** The body of the [for] loop: does the candidate look like JSON? *)
Definition looks_like_json (candidate : string) : bool :=
  startswith candidate "{" && endswith candidate "}" ||
  startswith candidate "[" && endswith candidate "]".

Definition try_any (body : string) : option string :=
  head (filter (fun candidate => looks_like_json candidate = true)
               ((fun m => strip (group_1 m)) <$> re_finditer pattern_any body)).

Definition extract_json_from_issue_body (body : string) : option string :=
  match try_codeblock body with
  | Some json => Some json
  | None =>
      match try_raw body with
      | Some json => Some json
      | None => try_any body
      end
  end.

End Schema.

(** ** Objects and identity *)

(** The functions above compute with JSON values.  What "deep copy" and "no
    aliasing" mean needs the objects behind the values: a [dict] or a [list]
    is a mutable object that lives at a location of the heap, and a value is
    a scalar or a reference to such an object.  Two references to one
    location are aliases. *)
Module Py.

Abbreviation loc := nat.

Inductive value : Type :=
| VNull
| VBool (b : bool)
| VInt (z : Z)
| VFloat (bits : Z)
| VStr (s : string)
| VRef (l : loc).

Inductive object : Type :=
| ODict (items : list (string * value))
| OList (items : list value).

(** The heap: the object at location [l] is the [l]-th one that was created. *)
Abbreviation heap := (list object).

Definition children (o : object) : list value :=
  match o with
  | ODict items => items.*2
  | OList items => items
  end.

(** Creating an object. *)
Definition alloc (o : object) (h : heap) : value * heap := (VRef (length h), h ++ [o]).

(** [d[key] = v] *)
Definition setitem (d : value) (key : string) (v : value) (h : heap) : result heap :=
  match d with
  | VRef l =>
      match h !! l with
      | Some (ODict items) => Ok (<[l := ODict (dict_set key v items)]> h)
      | _ => Raise TypeError
      end
  | _ => Raise TypeError
  end.

(** [d[key]] *)
Definition getitem (d : value) (key : string) (h : heap) : result value :=
  match d with
  | VRef l =>
      match h !! l with
      | Some (ODict items) =>
          match dict_get key items with
          | Some v => Ok v
          | None => Raise (KeyError key)
          end
      | _ => Raise TypeError
      end
  | _ => Raise TypeError
  end.

Section MapM.
Context {A B : Type} (f : A → result B).
Fixpoint mapM_result (l : list A) : result (list B) :=
  match l with
  | [] => Ok []
  | x :: l' => y ← f x; ys ← mapM_result l'; Ok (y :: ys)
  end.
End MapM.

(** [json.dumps(v)], as the JSON value that the text denotes.  [depth] is
    what is left of the interpreter's recursion limit and [markers] the
    containers being serialised, by which a circular structure is detected.
    (No Python state has a dangling reference; the model reports one as a
    [TypeError].) *)
Fixpoint dumps (depth : nat) (markers : list loc) (h : heap) (v : value) : result json :=
  match v with
  | VNull => Ok JNull
  | VBool b => Ok (JBool b)
  | VInt z => Ok (JInt z)
  | VFloat bits => Ok (JFloat bits)
  | VStr s => Ok (JStr s)
  | VRef l =>
      match depth with
      | O => Raise RecursionError
      | S depth' =>
          if bool_decide (l ∈ markers) then Raise ValueError
          else
            match h !! l with
            | None => Raise TypeError
            | Some (ODict items) =>
                kvs ← mapM_result
                        (fun kv : string * value =>
                           j ← dumps depth' (l :: markers) h kv.2; Ok (kv.1, j))
                        items;
                Ok (JObject kvs)
            | Some (OList items) =>
                xs ← mapM_result (dumps depth' (l :: markers) h) items;
                Ok (JArray xs)
            end
      end
  end.

Section BuildAll.
Variable build : json → heap → value * heap.

(** The elements of a list, built from left to right. *)
Fixpoint build_list (xs : list json) (h : heap) : list value * heap :=
  match xs with
  | [] => ([], h)
  | x :: xs' =>
      let '(v, h1) := build x h in
      let '(vs, h2) := build_list xs' h1 in
      (v :: vs, h2)
  end.

(** The items of a [dict], built and stored key by key: a repeated key
    keeps its first position and its last value. *)
Fixpoint build_items (kvs : list (string * json)) (acc : list (string * value)) (h : heap)
  : list (string * value) * heap :=
  match kvs with
  | [] => (acc, h)
  | (k, x) :: kvs' =>
      let '(v, h1) := build x h in
      build_items kvs' (dict_set k v acc) h1
  end.
End BuildAll.

(** Building the objects of a JSON value: every object and every array
    becomes a new object of the heap.  This is what [json.loads] does with a
    text, and what evaluating a [dict] display does. *)
Fixpoint build (j : json) (h : heap) : value * heap :=
  match j with
  | JNull => (VNull, h)
  | JBool b => (VBool b, h)
  | JInt z => (VInt z, h)
  | JFloat bits => (VFloat bits, h)
  | JStr s => (VStr s, h)
  | JArray xs =>
      let '(vs, h') := build_list build xs h in
      alloc (OList vs) h'
  | JObject kvs =>
      let '(items, h') := build_items build kvs [] h in
      alloc (ODict items) h'
  end.

Definition loads (text : json) (h : heap) : value * heap := build text h.

(** The [for] loop of [generate_new_schema]. *)
Fixpoint fill_tag_properties
    (tag_properties : value) (items : list (string * string)) (h : heap) : result heap :=
  match items with
  | [] => Ok h
  | (tag_name, type_name) :: items' =>
      let '(definition, h) := build (type_name_to_json_schema type_name) h in
      h ← setitem tag_properties tag_name definition h;
      fill_tag_properties tag_properties items' h
  end.

Definition generate_new_schema
    (depth : nat) (base_schema : value) (tag_registry : list (string * string))
    (new_version : Z) (h : heap) : result (value * heap) :=
  text ← dumps depth [] h base_schema;
  let '(schema, h) := loads text h in
  h ← setitem schema "title" (VStr (schema_title new_version)) h;
  let '(tag_properties, h) := alloc (ODict []) h in
  h ← fill_tag_properties tag_properties (sorted tag_registry) h;
  let '(property_names, h) :=
    build (JObject [("type", JStr "string"); ("pattern", JStr tag_name_pattern)]) h in
  let '(additional_properties, h) := build (ref "#/$defs/tagValue") h in
  let '(tags, h) :=
    alloc (ODict
      [ ("type", VStr "object");
        ("description",
          VStr "Community-defined tags. New tags can be added, but must use consistent types.");
        ("propertyNames", property_names);
        ("properties", tag_properties);
        ("additionalProperties", additional_properties) ]) h in
  properties ← getitem schema "properties" h;
  h ← setitem properties "tags" tags h;
  Ok (schema, h).

(** [l] is the location of an object that can be reached from [v]. *)
Inductive reachable (h : heap) : value → loc → Prop :=
| reachable_here l : reachable h (VRef l) l
| reachable_step l o v l' :
    h !! l = Some o → v ∈ children o → reachable h v l' → reachable h (VRef l) l'.

End Py.

(** ** Specification vocabulary *)

(** The order of tuples [(tag_name, type_name)] that [sorted] realises. *)
Definition item_lt (a b : string * string) : Prop :=
  String_as_OT.lt a.1 b.1 ∨ (a.1 = b.1 ∧ String_as_OT.lt a.2 b.2).

(** [a <= b] for tuples: [b] is not below [a]. *)
Definition item_le (a b : string * string) : Prop := item_ltb b a = false.


(** The value found by following a path of keys into a document. *)
Fixpoint json_at (keys : list string) (j : json) : option json :=
  match keys with
  | [] => Some j
  | k :: keys' =>
      match j with
      | JObject kvs =>
          match dict_get k kvs with
          | Some j' => json_at keys' j'
          | None => None
          end
      | _ => None
      end
  end.

(** Version 1 of the schema, reduced to what the engine reads: a title and
    a [tags] property that declares no tag yet. *)
Definition schema_v1 : json :=
  JObject
    [ ("title", JStr "PlaneQuery Aircraft Community Submission (v1)");
      ("type", JStr "object");
      ("properties",
        JObject
          [ ("tags",
              JObject
                [ ("type", JStr "object");
                  ("propertyNames",
                    JObject [("type", JStr "string"); ("pattern", JStr tag_name_pattern)]);
                  ("additionalProperties", ref "#/$defs/tagValue") ]) ]) ].

(** The entry of [tag_properties] for one item of the registry. *)
Definition tag_entry (item : string * string) : string * json :=
  (item.1, type_name_to_json_schema item.2).


(** *** Patterns as expressions *)

Section Patterns.
Import Re.

(** The characters of a literal word. *)
Fixpoint word (s : string) : list regex :=
  match s with
  | EmptyString => []
  | String c s' => Chars [SChar c] :: word s'
  end.

(** [\s*], [\n] and [[\s\S]*?] *)
Definition spaces : regex := Repeat true 0 None [SSpace].
Definition nl : regex := Chars [SChar newline].
Definition anything_lazy : regex := Repeat false 0 None [SSpace; SNonSpace].
Definition opening_bracket : regex := Chars [SChar "["; SChar "{"].
Definition closing_bracket : regex := Chars [SChar "]"; SChar "}"].
Definition bracketed : regex := Group (seq [opening_bracket; anything_lazy; closing_bracket]).

(** What [pattern_codeblock], [pattern_raw], [pattern_any] and
    [tag_name_pattern] compile to. *)
Definition codeblock_regex : regex :=
  seq (word "### Submission JSON" ++ [spaces; nl; spaces] ++ word "```" ++
       [Alt (seq (word "json")) Empty; spaces; nl; Group anything_lazy; nl; spaces] ++
       word "```").

Definition raw_regex : regex :=
  seq (word "### Submission JSON" ++ [spaces; nl; spaces; bracketed;
       Lookahead (Alt (seq (nl :: word "###")) (Alt (seq (nl :: nl :: word "###")) Eol))]).

Definition tag_name_regex : regex :=
  seq [Bol; Chars [SRange "a" "z"];
       Repeat true 0 (Some 63%nat) [SRange "a" "z"; SRange "0" "9"; SChar "_"]; Eol].
End Patterns.

(** *** Tag names *)

Fixpoint string_forallb (p : ascii → bool) (s : string) : bool :=
  match s with
  | EmptyString => true
  | String c s' => p c && string_forallb p s'
  end.

Definition is_lower (c : ascii) : bool :=
  ((97 <=? nat_of_ascii c) && (nat_of_ascii c <=? 122))%nat.

(** A lowercase letter, a digit or an underscore. *)
Definition is_tag_char (c : ascii) : bool :=
  is_lower c || ReSyntax.is_digit c || Ascii.eqb c "_".

(** "Lowercase alphanumeric characters and underscores, of length 1 to 64". *)
Definition lower_alnum_1_64 (name : string) : bool :=
  (1 <=? String.length name)%nat && (String.length name <=? 64)%nat &&
  string_forallb is_tag_char name.

(** A lowercase letter followed by at most 63 tag characters. *)
Definition letter_then_tag_chars (name : string) : bool :=
  match name with
  | EmptyString => false
  | String c rest =>
      is_lower c && (String.length rest <=? 63)%nat && string_forallb is_tag_char rest
  end.

(** A name is accepted by a pattern when [re.search] finds a match, which is
    how the validator applies the [pattern] keyword. *)
Definition pattern_accepts (pattern : string) (name : string) : bool :=
  match re_search pattern name with Some _ => true | None => false end.

(** *** Issue bodies *)

(** A line break. *)
Definition NL : string := String Re.newline "".

Definition all_space (s : string) : bool := string_forallb Re.isspace s.

Definition no_backtick (s : string) : bool :=
  string_forallb (fun c => negb (Ascii.eqb c "`")) s.

Definition has_newline (s : string) : bool :=
  negb (string_forallb (fun c => negb (Ascii.eqb c Re.newline)) s).

(** The text after a run of characters of a set: it is over, or goes on
    with a character outside the set. *)
Definition stops (items : list Re.set_item) (r : string) : Prop :=
  match r with
  | EmptyString => True
  | String c _ => Re.in_set items c = false
  end.

(** The text starts with a line break, blanks and a fence. *)
Definition closes_fence (s : string) : bool :=
  match s with
  | EmptyString => false
  | String c s' => Ascii.eqb c Re.newline && String.prefix "```" (lstrip s')
  end.

(** [\n\s*```], the end of the code-block pattern. *)
Definition close_list : list Re.regex := [nl; spaces] ++ word "```".

(** The first character, if any, is not a line break. *)
Definition no_newline_head (s : string) : Prop :=
  match s with
  | EmptyString => True
  | String c _ => c ≠ Re.newline
  end.

Definition no_newline (s : string) : bool :=
  string_forallb (fun c => negb (Ascii.eqb c Re.newline)) s.

(** *** Heaps *)

(** A value that does not point below location [n]: a scalar, or a
    reference to an object created at [n] or later. *)
Definition value_above (n : nat) (v : Py.value) : Prop :=
  match v with
  | Py.VRef l => (n ≤ l)%nat
  | _ => True
  end.

Definition object_above (n : nat) (o : Py.object) : Prop :=
  Forall (value_above n) (Py.children o).

(** [h'] has the objects of [h] and, after them, objects that do not point
    below [n]. *)
Definition extends (n : nat) (h h' : list Py.object) : Prop :=
  ∃ new, h' = h ++ new ∧ Forall (object_above n) new.

(** Every object of [h0] is in [h], as it was. *)
Definition keeps (h0 h : list Py.object) : Prop :=
  ∀ l o, h0 !! l = Some o → h !! l = Some o.

(** From location [n] on, the objects of [h] do not point below [n]. *)
Definition closed_above (n : nat) (h : list Py.object) : Prop :=
  ∀ l o, (n ≤ l)%nat → h !! l = Some o → object_above n o.

(** What holds of the heap all along [generate_new_schema], started in
    [h0]: the objects of [h0] are untouched, and the new ones do not point
    to them. *)
Definition separate_from (h0 h : list Py.object) : Prop :=
  keeps h0 h ∧ closed_above (length h0) h.

(** The seven type names of tag values. *)
Definition json_type_names : list string :=
  ["string"; "integer"; "number"; "boolean"; "null"; "array"; "object"].

(** [submissions = data if isinstance(data, list) else [data]] *)
Definition submissions_of (data : json) : list json :=
  match data with
  | JArray xs => xs
  | _ => [data]
  end.

(** ** [update_schema.py]: the entry points *)

(** How a script ends: by returning from [main], or by [sys.exit]. *)
Inductive ending : Type :=
| Returns
| Exits (status : Z).

Section UpdateSchemaMain.
(** [read_all_submissions] and [build_tag_type_registry] come from
    [read_community_data]: the submissions read and the registry builder are
    parameters.  So is the text of the path of a version, which depends on
    [SCHEMAS_DIR]. *)
Variable submissions : list json.
Variable build_tag_type_registry : list json → list (string * string).
Variable path_text : Z → string.

Definition update_schema_from_submissions (check_only : bool) (st : store)
  : result (option Z * list string) * store :=
  let tag_registry := build_tag_type_registry submissions in
  create_new_schema_version tag_registry check_only st.

(** [print(f"... (v{get_latest_schema_version()})")] and the ending that
    follows. *)
Definition print_latest (before : string) (how : ending) (st : store)
  : result (list string * ending) * store :=
  match get_latest_schema_version st with
  | Raise e => (Raise e, st)
  | Ok latest => (Ok ([before +:+ str_of_Z latest +:+ ")"], how), st)
  end.

(** [main], with [args.check] as its argument: the lines printed and the
    ending.  [if new_version:] is false for [None] and for [0]. *)
Definition update_schema_main (check : bool) (st : store)
  : result (list string * ending) * store :=
  match update_schema_from_submissions check st with
  | (Raise e, st) => (Raise e, st)
  | (Ok (new_version, new_tags), st) =>
      let needed :=
        match new_version with
        | Some v => if bool_decide (v = 0) then None else Some v
        | None => None
        end in
      if check then
        match needed with
        | Some v =>
            (Ok (["Schema update needed -> v" +:+ str_of_Z v +:+ ". New tags: "
                  +:+ String.concat ", " new_tags], Exits 1), st)
        | None => print_latest "Schema is up to date (v" (Exits 0) st
        end
      else
        match needed with
        | Some v =>
            (Ok (["Created " +:+ path_text (get_schema_path v);
                  "Added tags: " +:+ String.concat ", " new_tags], Returns), st)
        | None => print_latest "No update needed (v" Returns st
        end
  end.
End UpdateSchemaMain.

(** ** [schema.py]: the contributor's name *)

Section ContributorName.
Import Re.

(** What [.] matches: every character but the line break. *)
Definition any_but_newline : list set_item := [SRange "000" "009"; SRange "011" "255"].

(** [(?=\n###|\n\n|$)] *)
Definition name_end : regex :=
  Lookahead (Alt (seq (nl :: word "###")) (Alt (seq [nl; nl]) Eol)).

(** The pattern
    ["### Contributor Name\s*\n\s*(.+?)(?=\n###|\n\n|$)"], as the
    expression that [re] compiles it to ([.] is outside the syntax read by
    [ReSyntax.compile]). *)
Definition contributor_name_regex : regex :=
  seq (word "### Contributor Name" ++
       [spaces; nl; spaces; Group (Repeat false 1 None any_but_newline); name_end]).

Definition extract_contributor_name_from_issue_body (body : string) : option string :=
  match search contributor_name_regex body with
  | Some m =>
      let name := strip (group_1 m) in
      if bool_decide (name ≠ "") && bool_decide (name ≠ "_No response_")
      then Some name
      else None
  | None => None
  end.
End ContributorName.

(** [t] occurs in [s]. *)
Definition occurs_in (t s : string) : Prop := ∃ pre post, s = pre +:+ t +:+ post.

(** No capturing group in the expression. *)
Fixpoint group_free (r : Re.regex) : bool :=
  match r with
  | Re.Group _ => false
  | Re.Seq r1 r2 | Re.Alt r1 r2 => group_free r1 && group_free r2
  | Re.Lookahead r => group_free r
  | _ => true
  end.

(** What the lookahead after the name accepts: the end of the text, a last
    line break, a heading on the next line, or an empty line. *)
Definition ends_field (post : string) : bool :=
  bool_decide (post = "") || bool_decide (post = NL) ||
  String.prefix (NL +:+ "###") post || String.prefix (NL +:+ NL) post.

(** * A scenario *)

(** Two submissions carry the tags [engine_count] (an integer) and
    [paint_color] (a string); version 1 of the schema declares no tag. *)

Example scenario_new_tags :
  check_for_new_tags [("engine_count", "integer"); ("paint_color", "string")] schema_v1
  = Ok ["engine_count"; "paint_color"].
Proof. reflexivity. Qed.

Example scenario_check_only :
  let st : store := {[ 1 := schema_v1 ]} in
  create_new_schema_version [("engine_count", "integer"); ("paint_color", "string")] true st
  = (Ok (Some 2, ["engine_count"; "paint_color"]), st).
Proof. by vm_compute. Qed.

Example scenario_write :
  let st : store := {[ 1 := schema_v1 ]} in
  let registry := [("paint_color", "string"); ("engine_count", "integer")] in
  ∃ doc,
    create_new_schema_version registry false st
    = (Ok (Some 2, ["paint_color"; "engine_count"]), <[2 := doc]> st) ∧
    json_at ["title"] doc = Some (JStr "PlaneQuery Aircraft Community Submission (v2)") ∧
    json_at ["properties"; "tags"; "properties"] doc
    = Some (JObject [("engine_count", JObject [("type", JStr "integer")]);
                     ("paint_color", JObject [("type", JStr "string")])]).
Proof. eexists. split; [|split]; by vm_compute. Qed.

(** Once version 2 declares them, the same registry asks for nothing. *)
Example scenario_up_to_date :
  let registry := [("paint_color", "string"); ("engine_count", "integer")] in
  let st1 : store := {[ 1 := schema_v1 ]} in
  let st2 := (create_new_schema_version registry false st1).2 in
  create_new_schema_version registry false st2 = (Ok (None, []), st2).
Proof. by vm_compute. Qed.

(** An unknown type name falls back to the generic tag value. *)
Example type_name_to_json_schema_unknown :
  type_name_to_json_schema "tuple" = JObject [("$ref", JStr "#/$defs/tagValue")].
Proof. reflexivity. Qed.

(** An empty schema directory has no latest version. *)
Example no_schema_at_all :
  create_new_schema_version [("engine_count", "integer")] false (∅ : store)
  = (Raise NotFoundError, ∅).
Proof. reflexivity. Qed.

(** The three attempts of the extractor, each on a body made for it. *)
Example extract_from_code_block :
  Schema.extract_json_from_issue_body
    ("### Submission JSON" +:+ NL +:+ NL +:+ "```json" +:+ NL +:+ "[1, 2]" +:+ NL +:+ "```" +:+ NL)
  = Some "[1, 2]".
Proof. by vm_compute. Qed.

Example extract_raw :
  Schema.extract_json_from_issue_body
    ("### Submission JSON" +:+ NL +:+ NL +:+ "{a: 1}" +:+ NL +:+ NL +:+ "### Contributor Name")
  = Some "{a: 1}".
Proof. by vm_compute. Qed.

Example extract_anywhere :
  Schema.extract_json_from_issue_body "please add [1, 2] to the registry" = Some "[1, 2]".
Proof. by vm_compute. Qed.

Example extract_nothing :
  Schema.extract_json_from_issue_body "nothing to see here" = None.
Proof. by vm_compute. Qed.

(** Without a copy there would be aliasing: storing into the base document
    itself changes its value. *)
Example store_into_base_is_seen :
  let '(base, h) := Py.build schema_v1 [] in
  match Py.setitem base "title" (Py.VStr "changed") h with
  | Ok h' => Py.dumps 8 [] h' base ≠ Py.dumps 8 [] h base
  | Raise _ => False
  end.
Proof. by vm_compute. Qed.
(** * Properties *)

(** ** Dictionaries *)

Section DictFacts.
Context {V : Type}.
Implicit Types (d : list (string * V)) (k : string).

Lemma dict_get_None k d : dict_get k d = None ↔ k ∉ keys d.
Proof.
  induction d as [|[k' v] d IH]; simpl.
  - split; [intros _; apply not_elem_of_nil | done].
  - destruct (String.eqb_spec k k') as [->|Hne].
    + split; [done | intros H; destruct H; left].
    + rewrite IH, not_elem_of_cons. tauto.
Qed.

Lemma dict_mem_true k d : dict_mem k d = true ↔ k ∈ keys d.
Proof.
  unfold dict_mem. destruct (dict_get k d) eqn:E.
  - split; [intros _ | done].
    destruct (decide (k ∈ keys d)) as [|Hn]; [done|].
    apply dict_get_None in Hn. congruence.
  - apply dict_get_None in E. split; [done | intros; contradiction].
Qed.

Lemma dict_mem_false k d : dict_mem k d = false ↔ k ∉ keys d.
Proof. rewrite <- dict_mem_true. destruct (dict_mem k d); naive_solver. Qed.

Lemma dict_get_elem_of k v d : NoDup (keys d) → (k, v) ∈ d → dict_get k d = Some v.
Proof.
  induction d as [|[k' v'] d IH]; simpl; intros Hnd Hin.
  - by apply elem_of_nil in Hin.
  - apply NoDup_cons in Hnd as [Hk' Hnd].
    apply elem_of_cons in Hin as [[= -> ->]|Hin].
    + by rewrite String.eqb_refl.
    + destruct (String.eqb_spec k k') as [->|_]; [|by apply IH].
      destruct Hk'. apply list_elem_of_fmap. by exists (k', v).
Qed.

Lemma dict_get_Some k v d : dict_get k d = Some v → (k, v) ∈ d.
Proof.
  induction d as [|[k' v'] d IH]; simpl; [done|].
  destruct (String.eqb_spec k k') as [->|_].
  - intros [= ->]. left.
  - intros H. right. by apply IH.
Qed.

(** Setting a key that is not there appends it. *)
Lemma dict_set_fresh k v d : k ∉ keys d → dict_set k v d = d ++ [(k, v)].
Proof.
  induction d as [|[k' v'] d IH]; simpl; [done|].
  rewrite not_elem_of_cons. intros [Hne Hk].
  destruct (String.eqb_spec k k'); [done|]. by rewrite IH.
Qed.

Lemma dict_get_set_eq k v d : dict_get k (dict_set k v d) = Some v.
Proof.
  induction d as [|[k' v'] d IH]; simpl.
  - by rewrite String.eqb_refl.
  - destruct (String.eqb_spec k k') as [->|Hne]; simpl.
    + by rewrite String.eqb_refl.
    + destruct (String.eqb_spec k k'); [done | apply IH].
Qed.

Lemma dict_get_set_ne k k' v d : k ≠ k' → dict_get k (dict_set k' v d) = dict_get k d.
Proof.
  intros Hne. induction d as [|[k0 v0] d IH]; simpl.
  - by destruct (String.eqb_spec k k').
  - destruct (String.eqb_spec k' k0) as [->|Hne']; simpl.
    + by destruct (String.eqb_spec k k0).
    + destruct (String.eqb_spec k k0); [done | apply IH].
Qed.
End DictFacts.

(** ** [sorted] *)

Lemma string_compare_OT s1 s2 : String_as_OT.compare s1 s2 = String.compare s1 s2.
Proof. reflexivity. Qed.

Lemma string_ltb_lt s1 s2 : String.ltb s1 s2 = true ↔ String_as_OT.lt s1 s2.
Proof.
  unfold String.ltb, String_as_OT.lt.
  change (String_as_OT.compare s1 s2) with (String.compare s1 s2).
  destruct (String.compare s1 s2); split; congruence.
Qed.

Lemma item_ltb_lt a b : item_ltb a b = true ↔ item_lt a b.
Proof.
  unfold item_ltb, item_lt.
  change (String.compare a.1 b.1) with (String_as_OT.compare a.1 b.1).
  destruct (String_as_OT.compare_spec a.1 b.1) as [E|L|G].
  - rewrite string_ltb_lt. split; [by right | intros [L|[_ L]]; [|done]].
    rewrite E in L. by apply (StrictOrder_Irreflexive (R:=String_as_OT.lt)) in L.
  - split; [by left | done].
  - split; [done | intros [L|[E _]]].
    + destruct (StrictOrder_Irreflexive (R:=String_as_OT.lt) a.1).
      by etransitivity.
    + rewrite E in G. by apply (StrictOrder_Irreflexive (R:=String_as_OT.lt)) in G.
Qed.

Lemma string_lt_trichotomy s1 s2 :
  String_as_OT.lt s1 s2 ∨ s1 = s2 ∨ String_as_OT.lt s2 s1.
Proof. destruct (String_as_OT.compare_spec s1 s2); auto. Qed.

Lemma string_lt_irrefl s : ¬ String_as_OT.lt s s.
Proof. apply (StrictOrder_Irreflexive (R:=String_as_OT.lt)). Qed.

Lemma string_lt_trans s1 s2 s3 :
  String_as_OT.lt s1 s2 → String_as_OT.lt s2 s3 → String_as_OT.lt s1 s3.
Proof. apply (StrictOrder_Transitive (R:=String_as_OT.lt)). Qed.

Lemma item_lt_irrefl a : ¬ item_lt a a.
Proof. intros [L|[_ L]]; by apply string_lt_irrefl in L. Qed.

Lemma item_lt_trans a b c : item_lt a b → item_lt b c → item_lt a c.
Proof.
  intros [L1|[E1 L1]] [L2|[E2 L2]]; unfold item_lt.
  - left. by eapply string_lt_trans.
  - left. by rewrite <- E2.
  - left. by rewrite E1.
  - right. split; [congruence | by eapply string_lt_trans].
Qed.

Lemma item_lt_trichotomy a b : item_lt a b ∨ a = b ∨ item_lt b a.
Proof.
  destruct a as [a1 a2], b as [b1 b2]. unfold item_lt; simpl.
  destruct (string_lt_trichotomy a1 b1) as [?|[->|?]];
    [by (left; left) | | by (right; right; left)].
  destruct (string_lt_trichotomy a2 b2) as [?|[->|?]];
    [by (left; right) | by (right; left) | by (right; right; right)].
Qed.

Lemma item_le_alt a b : item_le a b ↔ ¬ item_lt b a.
Proof.
  unfold item_le. rewrite <- item_ltb_lt. by destruct (item_ltb b a).
Qed.

#[local] Instance item_le_trans : Transitive item_le.
Proof.
  intros a b c. rewrite !item_le_alt. intros Hab Hbc Hca.
  destruct (item_lt_trichotomy a b) as [L|[->|L]]; [|done|done].
  apply Hbc. by eapply item_lt_trans.
Qed.

#[local] Instance item_le_antisym : AntiSymm (=) item_le.
Proof.
  intros a b. rewrite !item_le_alt. intros Hab Hba.
  by destruct (item_lt_trichotomy a b) as [L|[->|L]].
Qed.

Lemma item_le_total a b : item_le a b ∨ item_le b a.
Proof.
  rewrite !item_le_alt.
  destruct (item_lt_trichotomy a b) as [L|[->|L]].
  - left. intros L'. eapply item_lt_irrefl, item_lt_trans; eauto.
  - left. apply item_lt_irrefl.
  - right. intros L'. eapply item_lt_irrefl, item_lt_trans; eauto.
Qed.

Lemma sort_insert_Permutation x l : sort_insert x l ≡ₚ x :: l.
Proof.
  induction l as [|y l IH]; simpl; [done|].
  destruct (item_ltb x y); [done|]. rewrite IH. apply Permutation_swap.
Qed.

Lemma sort_insert_Sorted x l : Sorted item_le l → Sorted item_le (sort_insert x l).
Proof.
  induction l as [|y l IH]; simpl; intros Hs.
  - repeat constructor.
  - destruct (item_ltb x y) eqn:E.
    + constructor; [done|]. constructor.
      destruct (item_le_total x y) as [|Hyx]; [done|].
      unfold item_le in Hyx. congruence.
    + apply Sorted_inv in Hs as [Hs Hhd]. constructor; [by apply IH|].
      destruct l as [|z l]; simpl.
      * by constructor.
      * destruct (item_ltb x z); constructor; [done|].
        by apply HdRel_inv in Hhd.
  Qed.

Lemma sorted_from_spec l acc :
  Sorted item_le acc →
  Sorted item_le (fold_left (fun acc x => sort_insert x acc) l acc) ∧
  fold_left (fun acc x => sort_insert x acc) l acc ≡ₚ acc ++ l.
Proof.
  revert acc. induction l as [|x l IH]; simpl; intros acc Hs.
  - by rewrite app_nil_r.
  - destruct (IH (sort_insert x acc)) as [H1 H2]; [by apply sort_insert_Sorted|].
    split; [done|]. rewrite H2, sort_insert_Permutation.
    by rewrite <- Permutation_middle.
Qed.

Lemma sorted_Permutation l : sorted l ≡ₚ l.
Proof. apply (sorted_from_spec l []). constructor. Qed.

Lemma sorted_StronglySorted l : StronglySorted item_le (sorted l).
Proof. apply Sorted_StronglySorted; [apply _|]. apply (sorted_from_spec l []). constructor. Qed.

(** [sorted] depends on the items only, not on the order they come in. *)
Lemma sorted_perm_eq l1 l2 : l1 ≡ₚ l2 → sorted l1 = sorted l2.
Proof.
  intros Hp. apply (StronglySorted_unique item_le); try apply sorted_StronglySorted.
  by rewrite !sorted_Permutation.
Qed.

(** ** The schema directory *)

Lemma fold_max_spec (v0 : Z) (vs : list Z) :
  fold_right Z.max v0 vs ∈ v0 :: vs ∧ ∀ k, k ∈ v0 :: vs → k ≤ fold_right Z.max v0 vs.
Proof.
  induction vs as [|v vs [IHin IHle]]; simpl.
  - split; [left|]. intros k Hk. apply list_elem_of_singleton in Hk. lia.
  - split.
    + destruct (Z.max_spec v (fold_right Z.max v0 vs)) as [[_ ->]|[_ ->]].
      * apply elem_of_cons in IHin as [->|?]; [left | right; by right].
      * right; left.
    + intros k Hk.
      assert (k = v ∨ k ∈ v0 :: vs) as [->|Hk'].
      { rewrite !elem_of_cons in Hk. rewrite elem_of_cons. tauto. }
      * lia.
      * specialize (IHle k Hk'). lia.
Qed.

Lemma get_latest_schema_version_spec (st : store) v :
  get_latest_schema_version st = Ok v →
  v ∈ dom st ∧ ∀ k, k ∈ dom st → k ≤ v.
Proof.
  unfold get_latest_schema_version.
  destruct (elements (dom st)) as [|v0 vs] eqn:E; [done|].
  intros [= <-]. destruct (fold_max_spec v0 vs) as [Hin Hle]. rewrite <- E in *.
  split.
  - by apply elem_of_elements.
  - intros k Hk. apply Hle. by apply elem_of_elements.
Qed.

(** The successor of the latest version is free. *)
Lemma next_version_free (st : store) v :
  get_latest_schema_version st = Ok v → st !! (v + 1) = None.
Proof.
  intros H. apply get_latest_schema_version_spec in H as [_ Hle].
  apply not_elem_of_dom. intros Hin. specialize (Hle _ Hin). lia.
Qed.

Lemma load_latest (st : store) cur :
  load_schema None st = Ok cur →
  ∃ v, get_latest_schema_version st = Ok v ∧ st !! v = Some cur.
Proof.
  unfold load_schema. destruct (get_latest_schema_version st) as [v|e]; simpl; [|done].
  destruct (st !! v) eqn:E; [|done]. intros [= ->]. eauto.
Qed.

(** ** The Schema Differ *)

Lemma tags_not_in_dict declared tags :
  tags_not_in (JObject declared) tags = Ok (filter (fun tag => tag ∉ keys declared) tags).
Proof.
  induction tags as [|tag tags IH]; simpl; [done|].
  rewrite IH; simpl. rewrite filter_cons.
  destruct (dict_mem tag declared) eqn:E.
  - apply dict_mem_true in E. by rewrite decide_False by tauto.
  - apply dict_mem_false in E. by rewrite decide_True.
Qed.

(** When [properties.tags.properties] is there, the accessor returns it. *)
Lemma get_existing_tag_definitions_at schema declared :
  json_at ["properties"; "tags"; "properties"] schema = Some declared →
  get_existing_tag_definitions schema = Ok declared.
Proof.
  unfold get_existing_tag_definitions. simpl.
  destruct schema as [| | | | | |kvs]; try done; simpl.
  destruct (dict_get "properties" kvs) as [[| | | | | |props]|]; try done; simpl.
  destruct (dict_get "tags" props) as [[| | | | | |tags]|]; try done; simpl.
  destruct (dict_get "properties" tags); [|done]. by intros [= ->].
Qed.

(** C4.  For a registry (a dictionary: its keys are pairwise distinct) and a
    schema whose declared tag properties [properties.tags.properties] are
    the dictionary [declared], [check_for_new_tags] returns the tag names of
    the registry that [declared] lacks: exactly those, in the order in which
    the registry lists them (the registry's key sequence with the declared
    names removed), each once.  The function is a function of its two
    arguments that returns the list and nothing else: it only reads them. *)
Theorem check_for_new_tags_spec
    (tag_registry : list (string * string)) (schema : json) (declared : list (string * json)) :
  NoDup (keys tag_registry) →
  get_existing_tag_definitions schema = Ok (JObject declared) →
  ∃ new_tags,
    check_for_new_tags tag_registry schema = Ok new_tags ∧
    (∀ tag, tag ∈ new_tags ↔ tag ∈ keys tag_registry ∧ tag ∉ keys declared) ∧
    new_tags = filter (fun tag => tag ∉ keys declared) (keys tag_registry) ∧
    new_tags `sublist_of` keys tag_registry ∧
    NoDup new_tags.
Proof.
  intros Hnd Hdecl. eexists. unfold check_for_new_tags. rewrite Hdecl; simpl.
  split; [apply tags_not_in_dict|].
  split; [|split; [done|split]].
  - intros tag. rewrite list_elem_of_filter. tauto.
  - apply sublist_filter.
  - by apply NoDup_filter.
Qed.

Lemma check_for_new_tags_spec_witness :
  let registry := [("engine_count", "integer"); ("paint_color", "string"); ("owner", "string")] in
  let schema :=
    JObject [("properties",
      JObject [("tags", JObject [("properties", JObject [("paint_color", JObject [])])])])] in
  NoDup (keys registry) ∧
  get_existing_tag_definitions schema = Ok (JObject [("paint_color", JObject [])]) ∧
  ∃ new_tags, check_for_new_tags registry schema = Ok new_tags ∧
              new_tags = ["engine_count"; "owner"].
Proof.
  intros registry schema.
  assert (Hnd : NoDup (keys registry)) by (refine (bool_decide_unpack _ _); by vm_compute).
  split; [exact Hnd|]. split; [reflexivity|].
  destruct (check_for_new_tags_spec registry schema _ Hnd eq_refl)
    as (new_tags & Hrun & _ & Heq & _).
  exists new_tags. split; [exact Hrun|]. rewrite Heq. by vm_compute.
Defined.

(** ** [create_new_schema_version] *)



(** What [create_new_schema_version] does when it reports a version. *)
Lemma create_new_schema_version_Some tag_registry check_only (st st' : store) v new_tags :
  create_new_schema_version tag_registry check_only st = (Ok (Some v, new_tags), st') →
  ∃ latest current_schema,
    get_latest_schema_version st = Ok latest ∧
    st !! latest = Some current_schema ∧
    check_for_new_tags tag_registry current_schema = Ok new_tags ∧
    v = latest + 1 ∧
    if check_only then st' = st
    else ∃ doc, generate_new_schema current_schema tag_registry (latest + 1) = Ok doc ∧
                st' = <[latest + 1 := doc]> st.
Proof.
  unfold create_new_schema_version, load_schema; simpl.
  destruct (get_latest_schema_version st) as [latest|]; [|done].
  destruct (st !! latest) as [cur|] eqn:Hcur; simpl; [|done].
  destruct (check_for_new_tags tag_registry cur) as [tags|] eqn:Htags; [|done].
  case_bool_decide; [done|].
  destruct check_only.
  - intros [= <- <- <-]. exists latest, cur. by rewrite Htags.
  - destruct (generate_new_schema cur tag_registry (latest + 1)) as [doc|] eqn:Hgen; [|done].
    unfold write_schema, get_schema_path. intros [= <- <- <-].
    exists latest, cur. rewrite Htags. do 4 (split; [done|]). by exists doc.
Qed.

(** The schema directory after [create_new_schema_version]: as before, or
    with one document more under the successor of the latest version. *)
Lemma create_new_schema_version_store tag_registry check_only (st : store) :
  (create_new_schema_version tag_registry check_only st).2 = st ∨
  ∃ latest doc, get_latest_schema_version st = Ok latest ∧
                (create_new_schema_version tag_registry check_only st).2 = <[latest + 1 := doc]> st.
Proof.
  unfold create_new_schema_version.
  destruct (get_latest_schema_version st) as [latest|]; [|by left].
  destruct (load_schema (Some latest) st) as [cur|]; [|by left].
  destruct (check_for_new_tags tag_registry cur) as [tags|]; [|by left].
  case_bool_decide; [by left|]. destruct check_only; [by left|].
  destruct (generate_new_schema cur tag_registry (latest + 1)) as [doc|]; [|by left].
  right. by exists latest, doc.
Qed.

Lemma regenerate_pr_schema_main_store submissions build_tag_type_registry (st : store) :
  (regenerate_pr_schema_main submissions build_tag_type_registry st).2 = st ∨
  ∃ latest doc, get_latest_schema_version st = Ok latest ∧
                (regenerate_pr_schema_main submissions build_tag_type_registry st).2
                = <[latest + 1 := doc]> st.
Proof.
  unfold regenerate_pr_schema_main.
  destruct (get_latest_schema_version st) as [latest|]; [|by left].
  destruct (load_schema None st) as [cur|]; [|by left].
  destruct (get_existing_tag_definitions cur); [|by left].
  case_bool_decide; [by left|].
  destruct (check_for_new_tags _ cur) as [tags|]; [|by left].
  case_bool_decide; [by left|].
  destruct (generate_new_schema cur _ (latest + 1)) as [doc|]; [|by left].
  right. by exists latest, doc.
Qed.

(** ** Version numbers *)

Lemma json_at_title kvs v : json_at ["title"] (JObject (dict_set "title" v kvs)) = Some v.
Proof. simpl. by rewrite dict_get_set_eq. Qed.

(** The generator succeeds on every base document that holds a [properties]
    dictionary, whatever the version number, and stamps the title with it. *)
Lemma generate_new_schema_total base_schema props tag_registry new_version :
  json_at ["properties"] base_schema = Some (JObject props) →
  ∃ doc, generate_new_schema base_schema tag_registry new_version = Ok doc ∧
         json_at ["title"] doc = Some (JStr (schema_title new_version)).
Proof.
  destruct base_schema as [| | | | | |kvs]; try done; simpl.
  destruct (dict_get "properties" kvs) as [[| | | | | |props']|] eqn:Hprops; try done.
  intros [= ->]. unfold generate_new_schema; simpl.
  rewrite dict_get_set_ne by done. rewrite Hprops; simpl.
  eexists; split; [done|]. simpl.
  rewrite dict_get_set_ne by done. by rewrite dict_get_set_eq.
Qed.




(** ** Writing a version *)




(** ** The tag properties of a generated schema *)

Lemma fill_fresh (items : list (string * string)) (acc : list (string * json)) :
  NoDup (keys acc ++ keys items) →
  fold_left (fun tag_properties '(tag_name, type_name) =>
               dict_set tag_name (type_name_to_json_schema type_name) tag_properties)
            items acc
  = acc ++ (tag_entry <$> items).
Proof.
  revert acc. induction items as [|[name ty] items IH]; intros acc Hnd; simpl.
  - by rewrite app_nil_r.
  - rewrite dict_set_fresh.
    + rewrite IH.
      * by rewrite <- app_assoc.
      * unfold keys in *. rewrite fmap_app; simpl. by rewrite <- app_assoc.
    + apply NoDup_app in Hnd as (_ & Hdis & _). intros Hin.
      apply (Hdis _ Hin). left.
Qed.

Lemma build_tag_properties_sorted tag_registry :
  NoDup (keys tag_registry) →
  build_tag_properties tag_registry = tag_entry <$> sorted tag_registry.
Proof.
  intros Hnd. unfold build_tag_properties. rewrite fill_fresh; [done|].
  simpl. unfold keys. by rewrite sorted_Permutation.
Qed.

Lemma keys_tag_entry items : keys (tag_entry <$> items) = keys items.
Proof. unfold keys. rewrite <- list_fmap_compose. by apply list_fmap_ext. Qed.

(** Distinct names in tuple order are in strictly ascending name order. *)
Lemma sorted_keys_ascending (items : list (string * string)) :
  StronglySorted item_le items → NoDup (keys items) →
  StronglySorted String_as_OT.lt (keys items).
Proof.
  induction 1 as [|a items Hs IH Hall]; simpl; intros Hnd; [constructor|].
  apply NoDup_cons in Hnd as [Ha Hnd]. constructor; [by apply IH|].
  apply Forall_fmap, Forall_forall. intros b Hb. simpl.
  rewrite Forall_forall in Hall. specialize (Hall b Hb). apply item_le_alt in Hall.
  destruct (string_lt_trichotomy a.1 b.1) as [L|[E|G]]; [done| |].
  - destruct Ha. rewrite E. apply list_elem_of_fmap. by exists b.
  - destruct Hall. by left.
Qed.

(** Two dictionaries that agree as mappings hold the same items. *)
Lemma dict_ext_Permutation {V} (d1 d2 : list (string * V)) :
  NoDup (keys d1) → NoDup (keys d2) →
  (∀ k, dict_get k d1 = dict_get k d2) → d1 ≡ₚ d2.
Proof.
  intros H1 H2 Hext. apply NoDup_Permutation.
  - by apply (NoDup_fmap_1 fst).
  - by apply (NoDup_fmap_1 fst).
  - intros [k v]. split; intros Hin.
    + apply dict_get_Some. rewrite <- Hext. by apply dict_get_elem_of.
    + apply dict_get_Some. rewrite Hext. by apply dict_get_elem_of.
Qed.

Lemma generate_new_schema_tag_properties base_schema tag_registry new_version doc :
  generate_new_schema base_schema tag_registry new_version = Ok doc →
  json_at ["properties"; "tags"; "properties"] doc
  = Some (JObject (build_tag_properties tag_registry)).
Proof.
  unfold generate_new_schema.
  destruct base_schema as [| | | | | |kvs]; try done; simpl.
  rewrite dict_get_set_ne by done.
  destruct (dict_get "properties" kvs) as [[| | | | | |props]|]; try done; simpl.
  intros [= <-]. simpl. rewrite !dict_get_set_eq. reflexivity.
Qed.

(** C9.  For a registry (a dictionary: its names are pairwise distinct), the
    [tags.properties] object of the generated schema lists the names of the
    registry, each once, in strictly ascending order of name (by code
    point), each with the JSON-Schema fragment of its type.  Hence a
    registry that is the same mapping from names to types, whatever the
    order in which its tags were inserted, yields the same schema. *)
Theorem generate_new_schema_sorted_tags
    (base_schema : json) (tag_registry : list (string * string)) (new_version : Z)
    (doc : json) :
  NoDup (keys tag_registry) →
  generate_new_schema base_schema tag_registry new_version = Ok doc →
  (∃ tag_properties,
     json_at ["properties"; "tags"; "properties"] doc = Some (JObject tag_properties) ∧
     keys tag_properties ≡ₚ keys tag_registry ∧
     StronglySorted String_as_OT.lt (keys tag_properties) ∧
     ∀ tag_name type_name,
       (tag_name, type_name) ∈ tag_registry →
       dict_get tag_name tag_properties = Some (type_name_to_json_schema type_name)) ∧
  (∀ other_registry,
     NoDup (keys other_registry) →
     (∀ tag_name, dict_get tag_name other_registry = dict_get tag_name tag_registry) →
     generate_new_schema base_schema other_registry new_version = Ok doc).
Proof.
  intros Hnd Hgen. split.
  - exists (build_tag_properties tag_registry).
    split; [by eapply generate_new_schema_tag_properties|].
    rewrite build_tag_properties_sorted by done. rewrite keys_tag_entry.
    assert (Hperm : keys (sorted tag_registry) ≡ₚ keys tag_registry)
      by (unfold keys; by rewrite sorted_Permutation).
    split; [done|]. split.
    + apply sorted_keys_ascending; [apply sorted_StronglySorted | by rewrite Hperm].
    + intros name ty Hin. apply dict_get_elem_of.
      * by rewrite keys_tag_entry, Hperm.
      * apply list_elem_of_fmap. exists (name, ty). split; [done|].
        by rewrite sorted_Permutation.
  - intros other Hnd' Hext. rewrite <- Hgen.
    unfold generate_new_schema, build_tag_properties.
    by rewrite (sorted_perm_eq other tag_registry) by (by apply dict_ext_Permutation).
Qed.

Lemma generate_new_schema_sorted_tags_witness :
  let registry := [("paint_color", "string"); ("engine_count", "integer")] in
  let other := [("engine_count", "integer"); ("paint_color", "string")] in
  NoDup (keys registry) ∧
  (∃ doc, generate_new_schema schema_v1 registry 2 = Ok doc ∧
          json_at ["properties"; "tags"; "properties"] doc
          = Some (JObject [("engine_count", JObject [("type", JStr "integer")]);
                           ("paint_color", JObject [("type", JStr "string")])]) ∧
          generate_new_schema schema_v1 other 2 = Ok doc).
Proof.
  intros registry other.
  assert (Hnd : NoDup (keys registry)) by (refine (bool_decide_unpack _ _); by vm_compute).
  assert (Hnd' : NoDup (keys other)) by (refine (bool_decide_unpack _ _); by vm_compute).
  split; [exact Hnd|].
  destruct (generate_new_schema schema_v1 registry 2) as [doc|] eqn:Hgen; [|by vm_compute in Hgen].
  exists doc. split; [done|].
  destruct (generate_new_schema_sorted_tags schema_v1 registry 2 doc Hnd Hgen) as [_ Hother].
  split.
  - vm_compute in Hgen. injection Hgen as <-. reflexivity.
  - apply Hother; [exact Hnd'|].
    intros name. simpl.
    destruct (String.eqb_spec name "engine_count") as [->|]; [reflexivity|].
    by destruct (String.eqb name "paint_color").
Defined.

(** ** The Submission Validator *)

Section ValidatorFacts.
Variable iter_errors : json → json → list validation_error.
Variable schema_file : result json.

Let validate_submission := Schema.validate_submission (Some iter_errors) schema_file.

End ValidatorFacts.


(** ** [parse_and_validate] *)

Lemma prefix_refl s : String.prefix s s = true.
Proof. induction s as [|c s IH]; simpl; [done|]. by destruct (ascii_dec c c). Qed.

Lemma is_substring_suffix pre s : is_substring s (pre +:+ s) = true.
Proof.
  induction pre as [|c pre IH]; simpl.
  - destruct s; simpl; [done|]. rewrite prefix_refl. destruct (ascii_dec a a); done.
  - rewrite IH. apply orb_true_r.
Qed.



(** ** The matcher *)

(** [String.append] does not simplify on its own. *)
Lemma append_nil_l s : "" +:+ s = s.
Proof. reflexivity. Qed.

Lemma append_cons c s t : String c s +:+ t = String c (s +:+ t).
Proof. reflexivity. Qed.

Lemma append_nil_r s : s +:+ "" = s.
Proof. induction s as [|c s IH]; [done|]. by rewrite append_cons, IH. Qed.

Lemma append_assoc s t u : (s +:+ t) +:+ u = s +:+ t +:+ u.
Proof. induction s as [|c s IH]; [done|]. by rewrite !append_cons, IH. Qed.

Lemma append_length s t : String.length (s +:+ t) = (String.length s + String.length t)%nat.
Proof. induction s as [|c s IH]; [done|]. rewrite append_cons. simpl. by rewrite IH. Qed.

Ltac string_simpl :=
  repeat (rewrite ?append_nil_l, ?append_cons in *; simpl in * ).

Section ReFacts.
Import Re.

Lemma run_seq_cons r rs st k :
  run (seq (r :: rs)) st k = run r st (fun st' => run (seq rs) st' k).
Proof. destruct rs; reflexivity. Qed.

(** [^] matches at offset 0 only, so a pattern that starts with it is not
    found further on. *)
Lemma search_from_Bol r pos s : search_from (Seq Bol r) (S pos) s = None.
Proof. revert pos. induction s as [|c s IH]; intros pos; simpl; [done | apply IH]. Qed.

Lemma search_Bol r s : search (Seq Bol r) s = match_at (Seq Bol r) 0 s.
Proof.
  unfold search. destruct s as [|c s]; simpl.
  - by destruct (match_at _ _ _).
  - destruct (match_at _ _ _); [done | apply search_from_Bol].
Qed.

(** A greedy bounded repetition succeeds exactly when the continuation
    succeeds after some run of at most [n] characters of the set. *)
Lemma repeat_greedy_bounded items k n pos s :
  is_Some (repeat_run true items k 0 (Some n) pos s) ↔
  ∃ t u, s = t +:+ u ∧ (String.length t ≤ n)%nat ∧
         string_forallb (in_set items) t = true ∧
         is_Some (k (pos + String.length t)%nat u).
Proof.
  revert n pos. induction s as [|c s IH]; intros n pos.
  - assert (repeat_run true items k 0 (Some n) pos "" = k pos "") as ->
      by (by destruct n).
    split.
    + intros Hk. exists "", "". string_simpl. rewrite Nat.add_0_r. repeat split; (done || lia).
    + intros (t & u & Heq & _ & _ & Hk). destruct t; [|done]. string_simpl.
      subst u. by rewrite Nat.add_0_r in Hk.
  - destruct n as [|n].
    { simpl. split.
      - intros Hk. exists "", (String c s). string_simpl. rewrite Nat.add_0_r.
        repeat split; (done || lia).
      - intros (t & u & Heq & Hlen & _ & Hk). destruct t; [|simpl in Hlen; lia].
        string_simpl. subst u. by rewrite Nat.add_0_r in Hk. }
    simpl. destruct (in_set items c) eqn:Hc.
    + destruct (repeat_run true items k 0 (Some n) (S pos) s) as [m|] eqn:Hrec.
      * split; [intros _ | done].
        destruct (proj1 (IH n (S pos))) as (t & u & -> & Hlen & Hall & Hk).
        { by rewrite Hrec. }
        exists (String c t), u. string_simpl. rewrite Hc, Hall.
        replace (pos + S (String.length t))%nat with (S pos + String.length t)%nat by lia.
        repeat split; (done || lia).
      * split.
        -- intros Hk. exists "", (String c s). string_simpl. rewrite Nat.add_0_r.
           repeat split; (done || lia).
        -- intros (t & u & Heq & Hlen & Hall & Hk). destruct t as [|c' t].
           ++ string_simpl. subst u. by rewrite Nat.add_0_r in Hk.
           ++ string_simpl. injection Heq as -> ->.
              apply andb_true_iff in Hall as [_ Hall].
              assert (is_Some (repeat_run true items k 0 (Some n) (S pos) (t +:+ u))) as Hs.
              { apply IH. exists t, u.
                replace (S pos + String.length t)%nat with (pos + S (String.length t))%nat by lia.
                repeat split; (done || lia). }
              rewrite Hrec in Hs. by destruct Hs.
    + split.
      * intros Hk. exists "", (String c s). string_simpl. rewrite Nat.add_0_r.
        repeat split; (done || lia).
      * intros (t & u & Heq & Hlen & Hall & Hk). destruct t as [|c' t].
        -- string_simpl. subst u. by rewrite Nat.add_0_r in Hk.
        -- string_simpl. injection Heq as -> ->. by rewrite Hc in Hall.
Qed.
End ReFacts.

(** ** The pattern for tag names *)

Lemma compile_tag_name_pattern : ReSyntax.compile tag_name_pattern = Some tag_name_regex.
Proof. reflexivity. Qed.

Lemma in_set_lower c : Re.in_set [Re.SRange "a" "z"] c = is_lower c.
Proof. unfold Re.in_set. simpl. by rewrite orb_false_r. Qed.

Lemma in_set_tag_char c :
  Re.in_set [Re.SRange "a" "z"; Re.SRange "0" "9"; Re.SChar "_"] c = is_tag_char c.
Proof. unfold Re.in_set, is_tag_char. simpl. by rewrite orb_false_r, orb_assoc. Qed.

Lemma string_forallb_ext p q s :
  (∀ c, p c = q c) → string_forallb p s = string_forallb q s.
Proof. intros H. induction s as [|c s IH]; simpl; [done|]. by rewrite H, IH. Qed.

(** What the pattern accepts under [re.search]: a lowercase letter followed
    by at most 63 tag characters, and possibly one final newline, which [$]
    lets through. *)
Lemma tag_name_pattern_accepts name :
  pattern_accepts tag_name_pattern name = true ↔
  ∃ core, letter_then_tag_chars core = true ∧
          (name = core ∨ name = core +:+ String Re.newline "").
Proof.
  unfold pattern_accepts, re_search. rewrite compile_tag_name_pattern.
  unfold tag_name_regex. simpl Re.seq. rewrite search_Bol. unfold Re.match_at.
  cbn [Re.run Re.rest Re.pos Re.group1].
  destruct name as [|c rest].
  { split; [done|]. intros (core & Hcore & [<-|Heq]); [done|].
    destruct core; [done | by rewrite append_cons in Heq]. }
  rewrite in_set_lower. destruct (is_lower c) eqn:Hc.
  2:{ split; [done|]. intros (core & Hcore & Heq).
      destruct core as [|c' core]; [done|]. simpl in Hcore.
      assert (c' = c) as -> by (destruct Heq as [Heq|Heq]; rewrite ?append_cons in Heq; congruence).
      by rewrite Hc in Hcore. }
  match goal with
  | |- context [Re.repeat_run true ?items ?k 0 (Some 63%nat) 1 rest] =>
      pose proof (repeat_greedy_bounded items k 63 1 rest) as Hrep;
      destruct (Re.repeat_run true items k 0 (Some 63%nat) 1 rest) as [m|]
  end.
  - split; [intros _ | done].
    destruct (proj1 Hrep) as (t & u & -> & Hlen & Hall & Hk); [done|].
    rewrite (string_forallb_ext _ is_tag_char) in Hall by apply in_set_tag_char.
    exists (String c t). split.
    + simpl. rewrite Hc, Hall. simpl. rewrite andb_true_r. by apply Nat.leb_le.
    + destruct u as [|c' [|c'' u]]; simpl in Hk.
      * left. by rewrite append_nil_r.
      * right. destruct (Ascii.eqb_spec c' Re.newline) as [->|]; [done | by destruct Hk].
      * by destruct Hk.
  - split; [done|]. intros (core & Hcore & Heq).
    destruct core as [|c' core]; [done|]. simpl in Hcore.
    apply andb_true_iff in Hcore as [[_ Hlen%Nat.leb_le]%andb_true_iff Hall].
    assert (is_Some (None : option Re.mstate)) as []; [|done].
    apply Hrep. destruct Heq as [Heq|Heq]; rewrite ?append_cons in Heq;
      injection Heq as -> ->.
    + exists core, "". rewrite append_nil_r.
      rewrite (string_forallb_ext _ is_tag_char) by apply in_set_tag_char.
      repeat split; try done.
    + exists core, (String Re.newline "").
      rewrite (string_forallb_ext _ is_tag_char) by apply in_set_tag_char.
      repeat split; try done.
Qed.

Lemma endswith_append_newline core :
  endswith (core +:+ String Re.newline "") Re.newline = true.
Proof.
  induction core as [|c core IH]; [done|]. rewrite append_cons. simpl.
  destruct (core +:+ String Re.newline "") eqn:E; [|done].
  by destruct core.
Qed.

(** C7 does not hold as stated: ["9lives"] and ["_"] are made of lowercase
    alphanumeric characters and underscores and have between 1 and 64
    characters, and the pattern rejects them. *)
Lemma tag_name_pattern_rejects_leading_digit :
  lower_alnum_1_64 "9lives" = true ∧ pattern_accepts tag_name_pattern "9lives" = false ∧
  lower_alnum_1_64 "_" = true ∧ pattern_accepts tag_name_pattern "_" = false.
Proof. repeat split; by vm_compute. Qed.

(** C7, amended.  The [tags] property of a generated schema carries the
    [propertyNames] pattern [^[a-z][a-z0-9_]{0,63}$].  A name that does not
    end in a newline is accepted by it exactly when it is a lowercase letter
    followed by at most 63 lowercase letters, digits or underscores.  The
    [additionalProperties] of [tags] is the reference to the generic tag
    value definition. *)
Theorem generate_new_schema_tag_names
    (base_schema : json) (tag_registry : list (string * string)) (new_version : Z)
    (doc : json) :
  generate_new_schema base_schema tag_registry new_version = Ok doc →
  json_at ["properties"; "tags"; "propertyNames"; "pattern"] doc = Some (JStr tag_name_pattern) ∧
  (∀ name, endswith name Re.newline = false →
     (pattern_accepts tag_name_pattern name = true ↔ letter_then_tag_chars name = true)) ∧
  json_at ["properties"; "tags"; "additionalProperties"] doc
  = Some (JObject [("$ref", JStr "#/$defs/tagValue")]).
Proof.
  intros Hgen.
  assert (json_at ["properties"; "tags"] doc
          = Some (tags_definition (build_tag_properties tag_registry))) as Htags.
  { revert Hgen. unfold generate_new_schema.
    destruct base_schema as [| | | | | |kvs]; try done; simpl.
    rewrite dict_get_set_ne by done.
    destruct (dict_get "properties" kvs) as [[| | | | | |props]|]; try done; simpl.
    intros [= <-]. simpl. by rewrite !dict_get_set_eq. }
  assert (∀ keys, json_at ("properties" :: "tags" :: keys) doc
                  = json_at keys (tags_definition (build_tag_properties tag_registry))) as Hat.
  { intros keys. simpl in *. destruct doc as [| | | | | |kvs]; try done.
    destruct (dict_get "properties" kvs) as [[| | | | | |props]|]; try done.
    destruct (dict_get "tags" props); [|done]. by injection Htags as ->. }
  split; [by rewrite Hat|]. split; [|by rewrite Hat].
  intros name Hend. rewrite tag_name_pattern_accepts. split.
  - intros (core & Hcore & [->| ->]); [done|].
    by rewrite endswith_append_newline in Hend.
  - intros Hname. exists name. by split; [|left].
Qed.

Lemma generate_new_schema_tag_names_witness :
  ∃ doc, generate_new_schema schema_v1 [("engine_count", "integer")] 2 = Ok doc ∧
         json_at ["properties"; "tags"; "propertyNames"; "pattern"] doc
         = Some (JStr tag_name_pattern) ∧
         endswith "engine_count" Re.newline = false ∧
         pattern_accepts tag_name_pattern "engine_count" = true ∧
         letter_then_tag_chars "engine_count" = true.
Proof.
  destruct (generate_new_schema schema_v1 [("engine_count", "integer")] 2) as [doc|] eqn:Hgen;
    [|by vm_compute in Hgen].
  exists doc. split; [done|].
  destruct (generate_new_schema_tag_names _ _ _ _ Hgen) as (Hpat & Hnames & _).
  split; [exact Hpat|]. split; [reflexivity|].
  assert (Hshape : letter_then_tag_chars "engine_count" = true) by reflexivity.
  split; [|exact Hshape]. by apply Hnames.
Defined.

(** ** Matching step by step *)

Section MatcherSteps.
Import Re.

Lemma in_set_space c : in_set [SSpace] c = isspace c.
Proof. unfold in_set. simpl. apply orb_false_r. Qed.

Lemma in_set_any c : in_set [SSpace; SNonSpace] c = true.
Proof. unfold in_set. simpl. by destruct (isspace c). Qed.

Lemma in_set_char c c' : in_set [SChar c] c' = Ascii.eqb c' c.
Proof. unfold in_set. simpl. apply orb_false_r. Qed.

(** A literal word matches when the text starts with it. *)
Lemma run_word_ok w rs p r g k :
  run (seq (word w ++ rs)) (MState p (w +:+ r) g) k
  = run (seq rs) (MState (p + String.length w) r g) k.
Proof.
  revert p. induction w as [|c w IH]; intros p.
  - simpl. by rewrite Nat.add_0_r.
  - change (word (String c w) ++ rs) with (Chars [SChar c] :: (word w ++ rs)).
    rewrite run_seq_cons, append_cons. cbn [run rest pos group1].
    rewrite in_set_char, Ascii.eqb_refl, IH. simpl. by rewrite Nat.add_succ_r.
Qed.

Lemma run_word_fail w rs p s g k :
  String.prefix w s = false → run (seq (word w ++ rs)) (MState p s g) k = None.
Proof.
  revert p s. induction w as [|c w IH]; intros p s; [by destruct s|].
  change (word (String c w) ++ rs) with (Chars [SChar c] :: (word w ++ rs)).
  rewrite run_seq_cons. cbn [run rest pos group1].
  destruct s as [|c' s]; [done|]. rewrite in_set_char. cbn [String.prefix].
  destruct (ascii_dec c c') as [->|Hne].
  - rewrite Ascii.eqb_refl. apply IH.
  - intros _. destruct (Ascii.eqb_spec c' c); [congruence | done].
Qed.

(** A greedy repetition over a run [b] of the set: when the continuation
    fails after every non-empty part of [b], it is tried at the start. *)
Lemma greedy_here items k pos b r :
  string_forallb (in_set items) b = true → stops items r →
  (∀ b1 b2, b = b1 +:+ b2 → b1 ≠ "" →
     k (pos + String.length b1)%nat (b2 +:+ r) = None) →
  repeat_run true items k 0 None pos (b +:+ r) = k pos (b +:+ r).
Proof.
  revert pos. induction b as [|c b IH]; intros pos Hall Hr Hfail.
  - rewrite append_nil_l. destruct r as [|c r]; [done|]. simpl in *. by rewrite Hr.
  - rewrite append_cons. simpl in *. apply andb_true_iff in Hall as [-> Hall].
    rewrite IH; [|done|done|].
    + specialize (Hfail (String c "") b eq_refl). simpl in Hfail.
      rewrite Nat.add_1_r in Hfail. by rewrite Hfail.
    + intros b1 b2 -> Hb1. specialize (Hfail (String c b1) b2 eq_refl).
      simpl in Hfail. rewrite Nat.add_succ_r in Hfail. by apply Hfail.
Qed.

(** ... and the longest run after which the continuation succeeds wins. *)
Lemma greedy_succ items k pos a b r m :
  string_forallb (in_set items) a = true →
  string_forallb (in_set items) b = true → stops items r →
  (∀ b1 b2, b = b1 +:+ b2 → b1 ≠ "" →
     k (pos + String.length a + String.length b1)%nat (b2 +:+ r) = None) →
  k (pos + String.length a)%nat (b +:+ r) = Some m →
  repeat_run true items k 0 None pos (a +:+ b +:+ r) = Some m.
Proof.
  revert pos. induction a as [|c a IH]; intros pos Ha Hb Hr Hfail Hk.
  - rewrite append_nil_l. simpl in *. rewrite Nat.add_0_r in *.
    rewrite greedy_here; done.
  - rewrite append_cons. simpl in *. apply andb_true_iff in Ha as [-> Ha].
    rewrite (IH (S pos)); try done.
    + intros b1 b2 Heq Hb1. rewrite <- (Hfail b1 b2 Heq Hb1). f_equal. lia.
    + rewrite <- Hk. f_equal. lia.
Qed.

Lemma greedy_fail items k pos b r :
  string_forallb (in_set items) b = true → stops items r →
  (∀ b1 b2, b = b1 +:+ b2 → k (pos + String.length b1)%nat (b2 +:+ r) = None) →
  repeat_run true items k 0 None pos (b +:+ r) = None.
Proof.
  intros Hall Hr Hfail. rewrite greedy_here; try done.
  - specialize (Hfail "" b eq_refl). simpl in Hfail. by rewrite Nat.add_0_r in Hfail.
  - intros b1 b2 Heq _. by apply Hfail.
Qed.

(** A lazy repetition stops as soon as the continuation succeeds, and takes
    one more character when it does not. *)
Lemma lazy_here items k pos s m :
  k pos s = Some m → repeat_run false items k 0 None pos s = Some m.
Proof. intros Hk. destruct s; simpl; by rewrite Hk. Qed.

Lemma lazy_step items k pos c s :
  k pos (String c s) = None → in_set items c = true →
  repeat_run false items k 0 None pos (String c s)
  = repeat_run false items k 0 None (S pos) s.
Proof. intros Hk Hc. simpl. by rewrite Hk, Hc. Qed.

(** The scan of [search] steps over a prefix where the pattern does not
    match. *)
Lemma search_from_skip r pre tail pos :
  (∀ p1 p2, pre = p1 +:+ p2 → p2 ≠ "" →
     match_at r (pos + String.length p1) (p2 +:+ tail) = None) →
  search_from r pos (pre +:+ tail)
  = search_from r (pos + String.length pre) tail.
Proof.
  revert pos. induction pre as [|c pre IH]; intros pos Hfail.
  - simpl. by rewrite Nat.add_0_r.
  - rewrite append_cons. cbn [search_from].
    pose proof (Hfail "" (String c pre) eq_refl) as H0.
    rewrite append_cons in H0. cbn [String.length] in H0.
    rewrite Nat.add_0_r in H0. rewrite H0 by done.
    rewrite IH; [f_equal; cbn [String.length]; lia|].
    intros p1 p2 -> Hp2. specialize (Hfail (String c p1) p2 eq_refl Hp2).
    cbn [String.length] in Hfail. by rewrite Nat.add_succ_r in Hfail.
Qed.
End MatcherSteps.

(** ** The code-block pattern *)

Section Codeblock.
Import Re.

Lemma lstrip_split s :
  ∃ ws r, s = ws +:+ r ∧ all_space ws = true ∧ stops [SSpace] r ∧ lstrip s = r.
Proof.
  induction s as [|c s (ws & r & -> & Hws & Hr & Hl)].
  - by exists "", "".
  - simpl. destruct (isspace c) eqn:Hc.
    + exists (String c ws), r. rewrite append_cons.
      split; [done|]. split; [|done]. unfold all_space in *. simpl. by rewrite Hc.
    + exists "", (String c (ws +:+ r)). rewrite append_nil_l.
      split; [done|]. split; [done|]. split; [|done]. unfold stops. by rewrite in_set_space.
Qed.

Lemma lstrip_all_space ws r : all_space ws = true → lstrip (ws +:+ r) = lstrip r.
Proof.
  unfold all_space. induction ws as [|c ws IH]; [done|]. rewrite append_cons. simpl.
  intros [-> ?]%andb_true_iff. by apply IH.
Qed.

Lemma prefix_fence_space b r : all_space b = true → b ≠ "" → String.prefix "```" (b +:+ r) = false.
Proof.
  destruct b as [|c b]; [done|]. unfold all_space. rewrite append_cons.
  cbn [String.prefix string_forallb].
  intros [Hc _]%andb_true_iff _. destruct (ascii_dec "`" c) as [<-|]; [by vm_compute in Hc | done].
Qed.

Lemma all_space_app a b : all_space (a +:+ b) = all_space a && all_space b.
Proof.
  unfold all_space. induction a as [|c a IH]; [done|]. rewrite append_cons. simpl.
  by rewrite IH, andb_assoc.
Qed.

Lemma close_fail p s g k : closes_fence s = false → run (seq close_list) (MState p s g) k = None.
Proof.
  unfold close_list. simpl app. rewrite run_seq_cons. unfold nl at 1. cbn [run rest pos group1].
  destruct s as [|c s]; [done|]. rewrite in_set_char. simpl closes_fence.
  destruct (Ascii.eqb c newline); [|done]. simpl andb. intros Hpre.
  rewrite run_seq_cons. unfold spaces. cbn [run rest pos group1].
  destruct (lstrip_split s) as (ws & r & -> & Hws & Hr & Hl). rewrite Hl in Hpre.
  apply greedy_fail.
  - unfold all_space in Hws. by rewrite (string_forallb_ext _ isspace) by apply in_set_space.
  - done.
  - intros b1 b2 -> . rewrite all_space_app in Hws. apply andb_true_iff in Hws as [_ Hb2].
    apply (run_word_fail "```" []).
    destruct b2 as [|c2 b2]; [done|]. by apply prefix_fence_space.
Qed.

Lemma close_ok p ws r g k m :
  all_space ws = true →
  k (MState (p + 1 + String.length ws + 3) r g) = Some m →
  run (seq close_list) (MState p (NL +:+ ws +:+ "```" +:+ r) g) k = Some m.
Proof.
  intros Hws Hk. unfold close_list. simpl app. rewrite run_seq_cons. unfold nl at 1, NL.
  rewrite append_cons, append_nil_l. cbn [run rest pos group1].
  rewrite in_set_char, Ascii.eqb_refl.
  rewrite run_seq_cons. unfold spaces. cbn [run rest pos group1].
  rewrite <- (append_nil_l ("```" +:+ r)).
  apply greedy_succ.
  - unfold all_space in Hws. by rewrite (string_forallb_ext _ isspace) by apply in_set_space.
  - done.
  - done.
  - intros b1 b2 Heq Hb1. by destruct b1.
  - rewrite append_nil_l. rewrite (run_word_ok "```" []). simpl.
    rewrite <- Hk. do 2 f_equal. lia.
Qed.
End Codeblock.

Section CodeblockGroup.
Import Re.

Lemma substring_prefix t r : String.substring 0 (String.length t) (t +:+ r) = t.
Proof. induction t as [|c t IH]; [by destruct r|]. rewrite append_cons. simpl. by rewrite IH. Qed.

Lemma fence_after_blank t rest :
  no_backtick t = true → String.prefix "```" (lstrip (t +:+ rest)) = true → all_space t = true.
Proof.
  unfold no_backtick, all_space. induction t as [|c t IH]; [done|].
  rewrite append_cons. cbn [lstrip string_forallb].
  intros [Hc Ht]%andb_true_iff. destruct (isspace c); [by apply IH|].
  cbn [String.prefix]. destruct (ascii_dec "`" c) as [<-|]; done.
Qed.

(** The lazy group ends at the first line break from which blanks and the
    closing fence follow; what it leaves out of a text without backticks is
    blank. *)
Lemma group_closes (p0 : nat) (post : string) (T2 T1 : string) :
  no_backtick T2 = true →
  ∃ g trail st',
    T1 +:+ T2 = g +:+ trail ∧ all_space trail = true ∧ group1 st' = Some g ∧
    repeat_run false [SSpace; SNonSpace]
      (fun p s =>
         run (seq close_list)
           (MState p s
              (Some (String.substring 0 (p - p0) (T1 +:+ T2 +:+ NL +:+ "```" +:+ post))))
           Some)
      0 None (p0 + String.length T1) (T2 +:+ NL +:+ "```" +:+ post)
    = Some st'.
Proof.
  revert T1. induction T2 as [|c T2 IH]; intros T1 Hbt.
  - exists T1, "". eexists. rewrite append_nil_r. split; [done|]. split; [done|].
    rewrite !append_nil_l. split; [|apply lazy_here].
    2:{ rewrite <- (append_nil_l ("```" +:+ post)) at 2. by apply close_ok. }
    simpl. f_equal. replace (p0 + String.length T1 - p0)%nat with (String.length T1) by lia.
    apply substring_prefix.
  - rewrite append_cons. unfold no_backtick in Hbt. cbn [string_forallb] in Hbt.
    apply andb_true_iff in Hbt as [Hc Hbt].
    destruct (closes_fence (String c (T2 +:+ NL +:+ "```" +:+ post))) eqn:Hclose.
    + cbn [closes_fence] in Hclose. apply andb_true_iff in Hclose as [Hnl Hpre].
      apply Ascii.eqb_eq in Hnl as ->.
      pose proof (fence_after_blank T2 _ Hbt Hpre) as Hblank.
      exists T1, (String newline T2). eexists. split; [done|]. split.
      { unfold all_space in *. cbn [string_forallb]. by rewrite Hblank. }
      split; [|apply lazy_here].
      2:{ change (String newline (T2 +:+ NL +:+ "```" +:+ post))
            with (NL +:+ T2 +:+ NL +:+ "```" +:+ post).
          rewrite <- (append_assoc T2 NL). apply close_ok; [|done].
          rewrite all_space_app. by rewrite Hblank. }
      simpl. f_equal. replace (p0 + String.length T1 - p0)%nat with (String.length T1) by lia.
      apply substring_prefix.
    + destruct (IH (T1 +:+ String c "") Hbt) as (g & trail & st' & Heq & Htrail & Hg & Hrun).
      exists g, trail, st'. rewrite append_assoc in Heq. split; [done|]. split; [done|].
      split; [done|]. rewrite lazy_step.
      * rewrite append_length in Hrun. simpl in Hrun.
        rewrite append_assoc in Hrun. rewrite append_cons, append_nil_l in Hrun.
        rewrite <- Hrun. f_equal. lia.
      * by apply close_fail.
      * apply in_set_any.
Qed.
End CodeblockGroup.

(** ** [strip] *)

Lemma lstrip_blank ws : all_space ws = true → lstrip ws = "".
Proof.
  unfold all_space. induction ws as [|c ws IH]; [done|]. simpl.
  intros [-> ?]%andb_true_iff. by apply IH.
Qed.

Lemma rstrip_blank ws : all_space ws = true → rstrip ws = "".
Proof.
  unfold all_space. induction ws as [|c ws IH]; [done|]. simpl.
  intros [-> ?]%andb_true_iff. by rewrite IH.
Qed.

Lemma rstrip_all_space s ws : all_space ws = true → rstrip (s +:+ ws) = rstrip s.
Proof.
  intros Hws. induction s as [|c s IH].
  - rewrite append_nil_l. by rewrite rstrip_blank.
  - rewrite append_cons. simpl. by rewrite IH.
Qed.

(** Blanks around a text do not change what [strip] returns. *)
Lemma strip_pad x s y :
  all_space x = true → all_space y = true → strip (x +:+ s +:+ y) = strip s.
Proof.
  intros Hx Hy. unfold strip. rewrite lstrip_all_space by done.
  induction s as [|c s IH].
  - rewrite append_nil_l. by rewrite lstrip_blank.
  - rewrite append_cons. simpl. destruct (Re.isspace c); [done|].
    by rewrite <- append_cons, rstrip_all_space.
Qed.

(** A blank text with a line break, cut at its last line break. *)
Lemma last_newline_split w :
  all_space w = true → has_newline w = true →
  ∃ a b, w = a +:+ NL +:+ b ∧ all_space a = true ∧ all_space b = true ∧ no_newline b = true.
Proof.
  unfold all_space, has_newline, no_newline.
  induction w as [|c w IH]; [done|]. cbn [string_forallb].
  intros [Hc Hw]%andb_true_iff Hnl.
  destruct (string_forallb (fun c => negb (Ascii.eqb c Re.newline)) w) eqn:Hrest.
  - rewrite andb_true_r in Hnl. apply negb_true_iff, negb_false_iff, Ascii.eqb_eq in Hnl as ->.
    by exists "", w.
  - destruct (IH Hw eq_refl) as (a & b & -> & Ha & Hb & Hnb).
    exists (String c a), b. rewrite append_cons. cbn [string_forallb]. by rewrite Hc, Ha.
Qed.

Section CodeblockBody.
Import Re.

Lemma run_nl_fail rs p s g k :
  no_newline_head s → run (seq (nl :: rs)) (MState p s g) k = None.
Proof.
  intros Hs. rewrite run_seq_cons. unfold nl. cbn [run rest pos group1].
  destruct s as [|c s]; [done|]. rewrite in_set_char.
  by destruct (Ascii.eqb_spec c newline).
Qed.

Lemma run_nl_ok rs p s g k :
  run (seq (nl :: rs)) (MState p (NL +:+ s) g) k = run (seq rs) (MState (S p) s g) k.
Proof.
  rewrite run_seq_cons. unfold nl, NL. rewrite append_cons, append_nil_l.
  cbn [run rest pos group1]. by rewrite in_set_char, Ascii.eqb_refl.
Qed.

Lemma no_newline_head_suffix b1 b2 r :
  no_newline (b1 +:+ b2) = true → no_newline_head r → no_newline_head (b2 +:+ r).
Proof.
  unfold no_newline. intros Hb Hr. destruct b2 as [|c b2]; [done|].
  rewrite append_cons. simpl. induction b1 as [|c1 b1 IH].
  - rewrite append_nil_l in Hb. cbn [string_forallb] in Hb.
    apply andb_true_iff in Hb as [Hc _]. apply negb_true_iff in Hc.
    by apply Ascii.eqb_neq in Hc.
  - rewrite append_cons in Hb. cbn [string_forallb] in Hb.
    apply andb_true_iff in Hb as [_ Hb]. by apply IH.
Qed.

(** After a line break that ends the blanks, a later start of the rest is
    not at a line break. *)
Lemma after_last_newline b b1 b2 r :
  no_newline b = true → no_newline_head r →
  NL +:+ b = b1 +:+ b2 → b1 ≠ "" → no_newline_head (b2 +:+ r).
Proof.
  intros Hb Hr Heq Hb1. destruct b1 as [|c b1]; [done|].
  unfold NL in Heq. rewrite !append_cons, append_nil_l in Heq. injection Heq as _ ->.
  by eapply no_newline_head_suffix.
Qed.

Lemma stops_space_no_newline r : stops [SSpace] r → no_newline_head r.
Proof.
  destruct r as [|c r]; [done|]. unfold stops, no_newline_head. rewrite in_set_space.
  intros Hc ->. by vm_compute in Hc.
Qed.

(** From the line break that ends the opening fence on: the blanks are
    skipped up to the last line break before the content, and the group takes
    the content up to the closing fence. *)
Lemma body_ok p content post :
  no_backtick content = true → all_space content = false →
  ∃ st' g,
    run (seq ([spaces; nl; Group anything_lazy] ++ close_list))
        (MState p (NL +:+ content +:+ NL +:+ "```" +:+ post) None) Some = Some st' ∧
    group1 st' = Some g ∧ strip g = strip content.
Proof.
  intros Hbt Hnonblank.
  destruct (lstrip_split content) as (lead & core & -> & Hlead & Hcore & _).
  assert (∃ c0 core', core = String c0 core') as (c0 & core' & Hcore0).
  { destruct core as [|c0 core']; [|by eauto].
    rewrite append_nil_r in Hnonblank. congruence. }
  assert (has_newline (NL +:+ lead) = true) as Hnl by done.
  assert (all_space (NL +:+ lead) = true) as Hsp by (by rewrite all_space_app, Hlead).
  destruct (last_newline_split _ Hsp Hnl) as (a & b & Hsplit & Ha & Hb & Hnb).
  assert (no_backtick (b +:+ core) = true) as Hbt'.
  { unfold no_backtick in *. clear -Hbt Hb.
    assert (string_forallb (fun c => negb (Ascii.eqb c "`")) core = true) as Hcore.
    { induction lead as [|c lead IH]; [done|]. rewrite append_cons in Hbt.
      cbn [string_forallb] in Hbt. apply andb_true_iff in Hbt as [_ ?]. by apply IH. }
    unfold all_space in Hb. induction b as [|c b IH]; [done|]. rewrite append_cons.
    cbn [string_forallb] in *. apply andb_true_iff in Hb as [Hc Hb]. rewrite IH by done.
    rewrite andb_true_r. destruct (Ascii.eqb_spec c "`") as [->|]; [by vm_compute in Hc|done]. }
  destruct (group_closes (S (p + String.length a)) post (b +:+ core) "" Hbt')
    as (g & trail & st' & Heq & Htrail & Hg & Hrun).
  exists st', g. split; [|split; [done|]].
  - simpl app. rewrite run_seq_cons. unfold spaces at 1. cbn [run rest pos group1].
    assert (NL +:+ (lead +:+ core) +:+ NL +:+ "```" +:+ post
            = a +:+ (NL +:+ b) +:+ core +:+ NL +:+ "```" +:+ post) as ->.
    { rewrite !append_assoc. rewrite <- (append_assoc NL lead), Hsplit.
      by rewrite !append_assoc. }
    apply greedy_succ.
    + unfold all_space in Ha. by rewrite (string_forallb_ext _ isspace) by apply in_set_space.
    + unfold all_space in Hsp, Hb. rewrite (string_forallb_ext _ isspace) by apply in_set_space.
      unfold NL. rewrite append_cons, append_nil_l. cbn [string_forallb]. by rewrite Hb.
    + rewrite Hcore0, append_cons. by rewrite Hcore0 in Hcore.
    + intros b1 b2 Heq' Hb1.
      apply run_nl_fail. eapply after_last_newline; [exact Hnb| |exact Heq'|exact Hb1].
      rewrite Hcore0, append_cons. rewrite Hcore0 in Hcore.
      by apply (stops_space_no_newline (String c0 core')).
    + rewrite !append_assoc, run_nl_ok.
      rewrite run_seq_cons. unfold anything_lazy. cbn [run rest pos group1].
      rewrite append_nil_l, Nat.add_0_r in Hrun.
      rewrite !append_assoc in Hrun. exact Hrun.
  - rewrite append_nil_l in Heq.
    assert (∃ x, lead = x +:+ b ∧ all_space x = true) as (x & -> & Hx).
    { destruct a as [|c a].
      - rewrite append_nil_l in Hsplit. unfold NL in Hsplit.
        rewrite !append_cons, !append_nil_l in Hsplit. injection Hsplit as ->. by exists "".
      - unfold NL in Hsplit. rewrite !append_cons, !append_nil_l in Hsplit.
        injection Hsplit as <- ->. exists (a +:+ NL).
        rewrite append_assoc. split; [done|]. rewrite all_space_app.
        unfold all_space in Ha. cbn [string_forallb] in Ha.
        apply andb_true_iff in Ha as [_ Ha]. unfold all_space at 1. by rewrite Ha. }
    rewrite append_assoc, Heq. by rewrite strip_pad.
Qed.
End CodeblockBody.

Section CodeblockMatch.
Import Re.

Lemma run_alt r1 r2 st k :
  run (Alt r1 r2) st k = match run r1 st k with Some m => Some m | None => run r2 st k end.
Proof. reflexivity. Qed.

Lemma run_empty st k : run Empty st k = k st.
Proof. reflexivity. Qed.

Lemma first_Some {A} (x y : option A) m :
  x = Some m → match x with Some m' => Some m' | None => y end = Some m.
Proof. by intros ->. Qed.

(** From the end of the opening fence on. *)
Lemma after_fence p lang content post :
  lang = "" ∨ lang = "json" →
  no_backtick content = true → all_space content = false →
  ∃ st' g,
    run (seq ([Alt (seq (word "json")) Empty; spaces; nl; Group anything_lazy] ++ close_list))
        (MState p (lang +:+ NL +:+ content +:+ NL +:+ "```" +:+ post) None) Some = Some st' ∧
    group1 st' = Some g ∧ strip g = strip content.
Proof.
  intros Hlang Hbt Hnb. simpl app. rewrite run_seq_cons, run_alt.
  change (seq (word "json")) with (seq (word "json" ++ [])).
  destruct Hlang as [-> | ->].
  - destruct (body_ok p content post Hbt Hnb) as (st' & g & Hrun & Hg).
    exists st', g. split; [|done].
    rewrite (run_word_fail "json" []) by done. rewrite run_empty. exact Hrun.
  - destruct (body_ok (p + 4) content post Hbt Hnb) as (st' & g & Hrun & Hg).
    exists st', g. split; [|done].
    rewrite (run_word_ok "json" []). cbn [seq String.length]. rewrite run_empty.
    apply first_Some. exact Hrun.
Qed.

(** From the end of the header on. *)
Lemma after_header p w1 lang content post :
  all_space w1 = true → has_newline w1 = true →
  lang = "" ∨ lang = "json" →
  no_backtick content = true → all_space content = false →
  ∃ st' g,
    run (seq ([spaces; nl; spaces] ++ word "```" ++
              [Alt (seq (word "json")) Empty; spaces; nl; Group anything_lazy] ++ close_list))
        (MState p (w1 +:+ "```" +:+ lang +:+ NL +:+ content +:+ NL +:+ "```" +:+ post) None)
        Some = Some st' ∧
    group1 st' = Some g ∧ strip g = strip content.
Proof.
  intros Hw1 Hnl Hlang Hbt Hnb.
  destruct (last_newline_split _ Hw1 Hnl) as (a & b & -> & Ha & Hb & Hnob).
  destruct (after_fence (S (p + String.length a) + String.length b + 3)
              lang content post Hlang Hbt Hnb) as (st' & g & Hrun & Hg).
  exists st', g. split; [|done].
  change ([spaces; nl; spaces] ++ word "```" ++ ?l)
    with (spaces :: nl :: spaces :: (word "```" ++ l)).
  rewrite run_seq_cons. unfold spaces at 1. cbn [run rest pos group1].
  rewrite !append_assoc. rewrite <- (append_assoc NL b).
  apply greedy_succ.
  - unfold all_space in Ha. by rewrite (string_forallb_ext _ isspace) by apply in_set_space.
  - rewrite (string_forallb_ext _ isspace) by apply in_set_space.
    unfold NL. rewrite append_cons, append_nil_l. cbn [string_forallb].
    unfold all_space in Hb. by rewrite Hb.
  - done.
  - intros b1 b2 Heq Hb1. apply run_nl_fail.
    eapply after_last_newline; [exact Hnob| |exact Heq|exact Hb1].
    simpl. by intros [=].
  - rewrite append_assoc, run_nl_ok.
    rewrite run_seq_cons. unfold spaces at 1. cbn [run rest pos group1].
    rewrite <- (append_nil_l ("```" +:+ _)).
    apply greedy_succ.
    + unfold all_space in Hb. by rewrite (string_forallb_ext _ isspace) by apply in_set_space.
    + done.
    + done.
    + intros b1 b2 Heq Hb1. by destruct b1.
    + rewrite append_nil_l, run_word_ok. exact Hrun.
Qed.

(** The pattern does not match where the text does not start with the
    header. *)
Lemma codeblock_needs_header p s :
  String.prefix "### Submission JSON" s = false → match_at codeblock_regex p s = None.
Proof.
  intros Hpre. unfold match_at, codeblock_regex. by rewrite run_word_fail.
Qed.

(** At the header of a fenced block, the pattern matches and group 1 is the
    content, up to blanks at its ends. *)
Lemma codeblock_matches p w1 lang content post :
  all_space w1 = true → has_newline w1 = true →
  lang = "" ∨ lang = "json" →
  no_backtick content = true → all_space content = false →
  ∃ m g,
    match_at codeblock_regex p
      ("### Submission JSON" +:+ w1 +:+ "```" +:+ lang +:+ NL +:+ content +:+ NL +:+ "```" +:+ post)
    = Some m ∧ m_group1 m = Some g ∧ strip g = strip content.
Proof.
  intros Hw1 Hnl Hlang Hbt Hnb.
  destruct (after_header (p + 19) w1 lang content post Hw1 Hnl Hlang Hbt Hnb)
    as (st' & g & Hrun & Hg & Hstrip).
  eexists _, g. unfold match_at, codeblock_regex.
  rewrite run_word_ok. cbn [String.length].
  change ([spaces; nl; spaces] ++ word "```" ++
          [Alt (seq (word "json")) Empty; spaces; nl; Group anything_lazy; nl; spaces] ++
          word "```")
    with ([spaces; nl; spaces] ++ word "```" ++
          [Alt (seq (word "json")) Empty; spaces; nl; Group anything_lazy] ++ close_list).
  rewrite Hrun. split; [done|]. by split.
Qed.
End CodeblockMatch.

(** ** The extractor *)

Lemma compile_pattern_codeblock : ReSyntax.compile Schema.pattern_codeblock = Some codeblock_regex.
Proof. reflexivity. Qed.

Lemma compile_pattern_raw : ReSyntax.compile Schema.pattern_raw = Some raw_regex.
Proof. reflexivity. Qed.

Lemma compile_pattern_any : ReSyntax.compile Schema.pattern_any = Some bracketed.
Proof. reflexivity. Qed.

Lemma is_substring_app_false n a b : is_substring n (a +:+ b) = false → is_substring n b = false.
Proof.
  induction a as [|c a IH]; [done|]. rewrite append_cons. cbn [is_substring].
  intros [_ H]%orb_false_iff. by apply IH.
Qed.

Lemma is_substring_false_prefix n s : is_substring n s = false → String.prefix n s = false.
Proof. destruct s; cbn [is_substring]; by intros [? _]%orb_false_iff. Qed.

Lemma prefix_app_long n a b :
  (String.length n ≤ String.length a)%nat → String.prefix n (a +:+ b) = String.prefix n a.
Proof.
  revert a. induction n as [|c n IH]; intros a Hlen; [by destruct a, b|].
  destruct a as [|c' a]; [simpl in Hlen; lia|]. rewrite append_cons. cbn [String.prefix].
  destruct (ascii_dec c c'); [|done]. apply IH. simpl in Hlen. lia.
Qed.

(** When the header does not occur before the end of [pre], no position
    inside [pre] starts with it. *)
Lemma no_header_inside pre p1 p2 tail :
  is_substring "### Submission JSON" (pre +:+ "### Submission JSO") = false →
  pre = p1 +:+ p2 → p2 ≠ "" →
  String.prefix "### Submission JSON" (p2 +:+ "### Submission JSON" +:+ tail) = false.
Proof.
  intros Hsub -> Hp2. rewrite append_assoc in Hsub.
  apply is_substring_app_false, is_substring_false_prefix in Hsub.
  change ("### Submission JSON" +:+ tail) with ("### Submission JSO" +:+ "N" +:+ tail).
  rewrite <- append_assoc, prefix_app_long; [done|].
  rewrite append_length. destruct p2; [done|]. simpl. lia.
Qed.

Lemma head_filter_Some {A} (P : A → Prop) `{∀ x, Decision (P x)} (l : list A) x :
  head (filter P l) = Some x → P x.
Proof.
  intros Hhd. assert (x ∈ filter P l) as Hin.
  { destruct (filter P l); [done|]. injection Hhd as ->. left. }
  by apply list_elem_of_filter in Hin as [? _].
Qed.

(** C5 does not hold as stated: the content of the fenced block below is
    [{1}] between two spaces on each side, and the extractor returns it
    without them. *)
Lemma extract_json_strips_fenced_content :
  let content := "  {1}  " in
  let body := "### Submission JSON" +:+ NL +:+ "```json" +:+ NL +:+ content +:+ NL +:+ "```" in
  Schema.extract_json_from_issue_body body = Some "{1}" ∧ "{1}" ≠ content.
Proof. split; by vm_compute. Qed.

(** C5, amended.  The extractor makes three attempts in order, each only
    when the one before found nothing, and returns [None] exactly when all
    three find nothing: (a) the code-block pattern, (b) the raw pattern after
    the header, (c) a scan of the whole body for bracketed spans, whose
    result has matching outer delimiters.  What (a) and (b) return is
    stripped of the blanks at its ends.  In particular: when the first
    ["### Submission JSON"] of the body is followed by blanks with a line
    break, a fence with or without [json], a line break, a content that has
    no backtick and is not blank, a line break and a fence, then the
    extractor returns that content, stripped, whatever the body holds before
    and after. *)
Theorem extract_json_layering (body : string) :
  (∀ json, Schema.try_codeblock body = Some json →
     Schema.extract_json_from_issue_body body = Some json) ∧
  (Schema.try_codeblock body = None →
     ∀ json, Schema.try_raw body = Some json →
       Schema.extract_json_from_issue_body body = Some json) ∧
  (Schema.try_codeblock body = None → Schema.try_raw body = None →
     Schema.extract_json_from_issue_body body = Schema.try_any body) ∧
  (∀ json, Schema.try_any body = Some json → Schema.looks_like_json json = true) ∧
  (Schema.extract_json_from_issue_body body = None ↔
     Schema.try_codeblock body = None ∧ Schema.try_raw body = None ∧
     Schema.try_any body = None) ∧
  (∀ pre w1 lang content post,
     body = pre +:+ "### Submission JSON" +:+ w1 +:+ "```" +:+ lang +:+ NL +:+
            content +:+ NL +:+ "```" +:+ post →
     is_substring "### Submission JSON" (pre +:+ "### Submission JSO") = false →
     all_space w1 = true → has_newline w1 = true →
     lang = "" ∨ lang = "json" →
     no_backtick content = true → all_space content = false →
     Schema.extract_json_from_issue_body body = Some (strip content)).
Proof.
  unfold Schema.extract_json_from_issue_body.
  split; [by intros json ->|]. split; [by intros -> json ->|].
  split; [by intros -> ->|].
  split; [intros json; apply (head_filter_Some (fun c => Schema.looks_like_json c = true))|].
  split.
  { destruct (Schema.try_codeblock body); [by split; [|intros [? _]]|].
    destruct (Schema.try_raw body); [by split; [|intros (_ & ? & _)]|].
    split; [done | by intros (_ & _ & ?)]. }
  intros pre w1 lang content post -> Hfirst Hw1 Hnl Hlang Hbt Hnb.
  assert (Schema.try_codeblock
            (pre +:+ "### Submission JSON" +:+ w1 +:+ "```" +:+ lang +:+ NL +:+
             content +:+ NL +:+ "```" +:+ post) = Some (strip content)) as ->; [|done].
  unfold Schema.try_codeblock, re_search. rewrite compile_pattern_codeblock.
  unfold Re.search. rewrite search_from_skip.
  - destruct (codeblock_matches (0 + String.length pre) w1 lang content post)
      as (m & g & Hm & Hg & Hstrip); try done.
    assert (∀ s, Re.search_from codeblock_regex (0 + String.length pre) s
                 = match Re.match_at codeblock_regex (0 + String.length pre) s with
                   | Some m => Some m
                   | None => match s with
                             | "" => None
                             | String _ s' =>
                                 Re.search_from codeblock_regex (S (0 + String.length pre)) s'
                             end
                   end) as Hunfold by (by intros []).
    rewrite Hunfold, Hm. unfold Re.group_1. rewrite Hg. simpl. by rewrite Hstrip.
  - intros p1 p2 Hpre Hp2. apply codeblock_needs_header.
    by eapply no_header_inside.
Qed.

Lemma extract_json_layering_witness :
  let pre := "### Contributor Name" +:+ NL +:+ "someone [1, 2]" +:+ NL +:+ NL in
  let content := "{" +:+ NL +:+ "  tags: {}" +:+ NL +:+ "}" +:+ NL in
  let post := NL +:+ "### Notes" +:+ NL +:+ "see {x}" in
  let body := pre +:+ "### Submission JSON" +:+ (NL +:+ NL) +:+ "```" +:+ "json" +:+ NL +:+
              content +:+ NL +:+ "```" +:+ post in
  is_substring "### Submission JSON" (pre +:+ "### Submission JSO") = false ∧
  no_backtick content = true ∧ all_space content = false ∧
  Schema.extract_json_from_issue_body body = Some ("{" +:+ NL +:+ "  tags: {}" +:+ NL +:+ "}").
Proof.
  intros pre content post body.
  assert (H1 : is_substring "### Submission JSON" (pre +:+ "### Submission JSO") = false)
    by reflexivity.
  assert (H2 : no_backtick content = true) by reflexivity.
  assert (H3 : all_space content = false) by reflexivity.
  split; [exact H1|]. split; [exact H2|]. split; [exact H3|].
  destruct (extract_json_layering body) as (_ & _ & _ & _ & _ & Hfenced).
  rewrite (Hfenced pre (NL +:+ NL) "json" content post eq_refl H1 eq_refl eq_refl
             (or_intror eq_refl) H2 H3).
  reflexivity.
Defined.

(** Why the content must not be blank: the blanks after the opening fence
    are skipped greedily, across the line of the closing fence, and the
    group then runs on to the next fence of the body. *)
Remark blank_fenced_block_runs_on :
  let body := "### Submission JSON" +:+ NL +:+ "```json" +:+ NL +:+ "" +:+ NL +:+ "```" +:+
              NL +:+ "other" +:+ NL +:+ "```" in
  Schema.extract_json_from_issue_body body = Some ("```" +:+ NL +:+ "other").
Proof. by vm_compute. Qed.

(** ** Objects and identity *)

Lemma json_ind' (P : json → Prop) :
  P JNull → (∀ b, P (JBool b)) → (∀ z, P (JInt z)) → (∀ bits, P (JFloat bits)) →
  (∀ s, P (JStr s)) →
  (∀ xs, Forall P xs → P (JArray xs)) →
  (∀ kvs, Forall (fun kv => P kv.2) kvs → P (JObject kvs)) →
  ∀ j, P j.
Proof.
  intros HN HB HI HF HS HA HO. fix IH 1. intros [|b|z|bits|s|xs|kvs].
  - exact HN.
  - apply HB.
  - apply HI.
  - apply HF.
  - apply HS.
  - apply HA. induction xs as [|x xs IHxs]; constructor; [apply IH | exact IHxs].
  - apply HO. induction kvs as [|[k x] kvs IHkvs]; constructor; [apply IH | exact IHkvs].
Qed.

Section HeapFacts.
Import Py.
Implicit Types (h : list object) (v : value) (o : object).

Lemma extends_refl n h : extends n h h.
Proof. exists []. by rewrite app_nil_r. Qed.

Lemma extends_trans n h1 h2 h3 : extends n h1 h2 → extends n h2 h3 → extends n h1 h3.
Proof.
  intros (new1 & -> & H1) (new2 & -> & H2). exists (new1 ++ new2).
  rewrite app_assoc. split; [done|]. by apply Forall_app.
Qed.

Lemma extends_length n h h' : extends n h h' → (length h ≤ length h')%nat.
Proof. intros (new & -> & _). rewrite length_app. lia. Qed.

Lemma alloc_extends n o h :
  object_above n o → (n ≤ length h)%nat →
  extends n h (alloc o h).2 ∧ value_above n (alloc o h).1.
Proof. intros Ho Hn. split; [|done]. exists [o]. by split; [|constructor]. Qed.

Lemma dict_set_above n k v (items : list (string * value)) :
  value_above n v → Forall (value_above n) items.*2 →
  Forall (value_above n) (dict_set k v items).*2.
Proof.
  intros Hv. induction items as [|[k' v'] items IH]; simpl; intros Hall.
  - by constructor.
  - apply Forall_cons in Hall as [Hv' Hall]. destruct (String.eqb k k'); simpl.
    + by constructor.
    + constructor; [done | by apply IH].
Qed.

(** Building a JSON value adds objects that point to new objects only. *)
Lemma build_extends j :
  ∀ h n, (n ≤ length h)%nat →
    extends n h (build j h).2 ∧ value_above n (build j h).1.
Proof.
  induction j as [|b|z|bits|s|xs IH|kvs IH] using json_ind'; intros h n Hn;
    try (split; [apply extends_refl | done]).
  - assert (∀ h, (n ≤ length h)%nat →
              extends n h (build_list build xs h).2 ∧
              Forall (value_above n) (build_list build xs h).1) as Hlist.
    { clear h Hn. induction IH as [|x xs Hx _ IHxs]; intros h Hn; simpl.
      - split; [apply extends_refl | constructor].
      - destruct (Hx h n Hn) as [He Hv]. destruct (build x h) as [v h1]. simpl in *.
        destruct (IHxs h1) as [He' Hvs]; [apply extends_length in He; lia|].
        destruct (build_list build xs h1) as [vs h2]. simpl in *.
        split; [by eapply extends_trans | by constructor]. }
    simpl. destruct (Hlist h Hn) as [He Hvs].
    destruct (build_list build xs h) as [vs h']. simpl in *.
    destruct (alloc_extends n (OList vs) h') as [He' Hv']; [done| |].
    { apply extends_length in He. lia. }
    split; [by eapply extends_trans | done].
  - assert (∀ acc h, (n ≤ length h)%nat → Forall (value_above n) acc.*2 →
              extends n h (build_items build kvs acc h).2 ∧
              Forall (value_above n) (build_items build kvs acc h).1.*2) as Hitems.
    { clear h Hn. induction IH as [|[k x] kvs Hx _ IHkvs]; intros acc h Hn Hacc; simpl.
      - split; [apply extends_refl | done].
      - simpl in Hx. destruct (Hx h n Hn) as [He Hv].
        destruct (build x h) as [v h1]. simpl in *.
        destruct (IHkvs (dict_set k v acc) h1) as [He' Hvs].
        + apply extends_length in He. lia.
        + by apply dict_set_above.
        + split; [by eapply extends_trans | done]. }
    simpl. destruct (Hitems [] h Hn) as [He Hvs]; [constructor|].
    destruct (build_items build kvs [] h) as [items h']. simpl in *.
    destruct (alloc_extends n (ODict items) h') as [He' Hv']; [done| |].
    { apply extends_length in He. lia. }
    split; [by eapply extends_trans | done].
Qed.

Lemma extends_separate h0 h h' :
  separate_from h0 h → (length h0 ≤ length h)%nat → extends (length h0) h h' →
  separate_from h0 h'.
Proof.
  intros [Hk Hc] Hlen (new & -> & Hnew). split.
  - intros l o Hl. apply lookup_app_l_Some. by apply Hk.
  - intros l o Hge Hl. apply lookup_app_Some in Hl as [Hl | [_ Hl]].
    + by eapply Hc.
    + rewrite Forall_forall in Hnew. apply Hnew. by eapply list_elem_of_lookup_2.
Qed.

Lemma separate_length h0 h : separate_from h0 h → (length h0 ≤ length h)%nat.
Proof.
  intros [Hk _]. destruct (decide (length h0 = 0)%nat) as [->|Hne]; [lia|].
  destruct (lookup_lt_is_Some_2 h0 (length h0 - 1)) as [o Ho]; [lia|].
  apply Hk, lookup_lt_Some in Ho. lia.
Qed.

Lemma separate_build h0 h j :
  separate_from h0 h →
  separate_from h0 (build j h).2 ∧ value_above (length h0) (build j h).1.
Proof.
  intros Hs. pose proof (separate_length _ _ Hs) as Hlen.
  destruct (build_extends j h (length h0) Hlen) as [He Hv].
  split; [by eapply extends_separate | done].
Qed.

Lemma separate_alloc h0 h o :
  separate_from h0 h → object_above (length h0) o →
  separate_from h0 (alloc o h).2 ∧ value_above (length h0) (alloc o h).1.
Proof.
  intros Hs Ho. pose proof (separate_length _ _ Hs) as Hlen.
  destruct (alloc_extends (length h0) o h Ho Hlen) as [He Hv].
  split; [by eapply extends_separate | done].
Qed.

Lemma separate_setitem h0 h d key v h' :
  separate_from h0 h → value_above (length h0) d → value_above (length h0) v →
  setitem d key v h = Ok h' → separate_from h0 h'.
Proof.
  intros [Hk Hc] Hd Hv. unfold setitem.
  destruct d as [| | | | |l]; try done. simpl in Hd.
  destruct (h !! l) as [[items|]|] eqn:Hl; try done. intros [= <-]. split.
  - intros l0 o Hl0. rewrite list_lookup_insert_ne; [by apply Hk|].
    apply lookup_lt_Some in Hl0. lia.
  - intros l0 o Hge. destruct (decide (l = l0)) as [<-|Hne].
    + rewrite list_lookup_insert_eq by (by eapply lookup_lt_Some).
      intros [= <-]. apply dict_set_above; [done|]. by apply (Hc l (ODict items)).
    + rewrite list_lookup_insert_ne by done. by apply Hc.
Qed.

Lemma separate_getitem h0 h d key v :
  separate_from h0 h → value_above (length h0) d →
  getitem d key h = Ok v → value_above (length h0) v.
Proof.
  intros [Hk Hc] Hd. unfold getitem.
  destruct d as [| | | | |l]; try done. simpl in Hd.
  destruct (h !! l) as [[items|]|] eqn:Hl; try done.
  destruct (dict_get key items) as [v'|] eqn:Hget; [|done]. intros [= <-].
  pose proof (Hc l _ Hd Hl) as Ho. unfold object_above in Ho. simpl in Ho.
  rewrite Forall_forall in Ho. apply Ho.
  apply dict_get_Some in Hget. apply list_elem_of_fmap. by exists (key, v').
Qed.

Lemma separate_fill h0 tag_properties items :
  ∀ h h', separate_from h0 h → value_above (length h0) tag_properties →
    fill_tag_properties tag_properties items h = Ok h' → separate_from h0 h'.
Proof.
  induction items as [|[tag_name type_name] items IH]; intros h h' Hs Htp; simpl.
  - by intros [= <-].
  - destruct (separate_build h0 h (type_name_to_json_schema type_name) Hs) as [Hs1 Hv].
    destruct (build (type_name_to_json_schema type_name) h) as [definition h1]. simpl in *.
    destruct (setitem tag_properties tag_name definition h1) as [h2|] eqn:Hset; [|done].
    simpl. apply IH; [|done].
    exact (separate_setitem _ _ _ _ _ _ Hs1 Htp Hv Hset).
Qed.

(** What can be reached from a value that does not point below [n], in a
    heap that is closed above [n], is at [n] or above. *)
Lemma reachable_above n h v l :
  closed_above n h → value_above n v → reachable h v l → (n ≤ l)%nat.
Proof.
  intros Hc Hv Hr. induction Hr as [l|l o v l' Hl Hin _ IH]; [done|].
  apply IH. pose proof (Hc l o Hv Hl) as Ho. unfold object_above in Ho.
  rewrite Forall_forall in Ho. by apply Ho.
Qed.
End HeapFacts.

Section DeepCopy.
Import Py.

Lemma mapM_result_ext {A B} (f g : A → result B) (l : list A) ys :
  (∀ x, x ∈ l → ∀ y, f x = Ok y → g x = Ok y) →
  mapM_result f l = Ok ys → mapM_result g l = Ok ys.
Proof.
  revert ys. induction l as [|x l IH]; intros ys Hfg; simpl; [done|].
  destruct (f x) as [y|] eqn:Hfx; [|done]. simpl.
  destruct (mapM_result f l) as [ys'|] eqn:Hl; [|done]. simpl. intros [= <-].
  rewrite (Hfg x (list_elem_of_here _ _) y Hfx). simpl.
  rewrite (IH ys'); [done| |done]. intros x' Hx'. apply Hfg. by right.
Qed.

(** Serialising reads the objects it goes through, and nothing else: in a
    heap that holds them unchanged, the result is the same. *)
Lemma dumps_keeps depth :
  ∀ markers h h2 v text,
    keeps h h2 → dumps depth markers h v = Ok text → dumps depth markers h2 v = Ok text.
Proof.
  induction depth as [|depth IH]; intros markers h h2 v text Hk;
    destruct v as [| | | | |l]; simpl; try done.
  case_bool_decide; [done|].
  destruct (h !! l) as [[items|items]|] eqn:Hl; [| |done]; rewrite (Hk _ _ Hl).
  - destruct (mapM_result _ items) as [kvs|] eqn:Hitems; [|done]. simpl. intros [= <-].
    erewrite mapM_result_ext; [done| |exact Hitems].
    intros kv _ y. simpl. destruct (dumps depth (l :: markers) h kv.2) as [j|] eqn:Hj; [|done].
    simpl. intros [= <-]. by rewrite (IH _ _ _ _ _ Hk Hj).
  - destruct (mapM_result _ items) as [xs|] eqn:Hitems; [|done]. simpl. intros [= <-].
    erewrite mapM_result_ext; [done| |exact Hitems].
    intros x _ y Hx. by apply (IH _ _ _ _ _ Hk Hx).
Qed.

Lemma separate_start h : separate_from h h.
Proof.
  split; [by intros l o|]. intros l o Hge Hl. apply lookup_lt_Some in Hl. lia.
Qed.

(** The invariant of [generate_new_schema]: the heap it returns holds the
    objects it was given, untouched, and the document it returns does not
    point to them. *)
Ltac step := cbn -[build alloc fill_tag_properties setitem getitem dumps sorted].

Lemma generate_new_schema_separate depth base_schema tag_registry new_version h schema h' :
  generate_new_schema depth base_schema tag_registry new_version h = Ok (schema, h') →
  (∃ text, dumps depth [] h base_schema = Ok text) ∧
  separate_from h h' ∧ value_above (length h) schema.
Proof.
  unfold generate_new_schema, loads.
  destruct (dumps depth [] h base_schema) as [text|]; [|done]. step.
  destruct (separate_build h h text (separate_start h)) as [Hs1 Hschema].
  destruct (build text h) as [schema0 h1]. simpl in Hs1, Hschema. step.
  destruct (setitem schema0 "title" _ h1) as [h2|] eqn:Htitle; [|done]. step.
  pose proof (separate_setitem h h1 schema0 "title" (VStr (schema_title new_version)) h2
                Hs1 Hschema I Htitle) as Hs2.
  destruct (separate_alloc h h2 (ODict []) Hs2) as [Hs3 Htp]; [constructor|].
  destruct (alloc (ODict []) h2) as [tag_properties h3] eqn:Halloc. simpl in Hs3, Htp. step.
  destruct (fill_tag_properties tag_properties (sorted tag_registry) h3) as [h4|] eqn:Hfill;
    [|done]. step.
  pose proof (separate_fill _ _ _ _ _ Hs3 Htp Hfill) as Hs4.
  match goal with
  | |- context [build ?j h4] =>
      destruct (separate_build h h4 j Hs4) as [Hs5 Hpn];
      destruct (build j h4) as [property_names h5]
  end. simpl in Hs5, Hpn. step.
  match goal with
  | |- context [build ?j h5] =>
      destruct (separate_build h h5 j Hs5) as [Hs6 Hap];
      destruct (build j h5) as [additional_properties h6]
  end. simpl in Hs6, Hap. step.
  match goal with
  | |- context [alloc ?o h6] =>
      destruct (separate_alloc h h6 o Hs6) as [Hs7 Htags];
      [ by repeat constructor | destruct (alloc o h6) as [tags h7] eqn:Halloc' ]
  end. simpl in Hs7, Htags. step.
  destruct (getitem schema0 "properties" h7) as [properties|] eqn:Hget; [|done]. step.
  pose proof (separate_getitem _ _ _ _ _ Hs7 Hschema Hget) as Hprops.
  destruct (setitem properties "tags" tags h7) as [h8|] eqn:Hset; [|done]. step.
  intros [= <- <-]. split; [by eexists|]. split; [|done].
  exact (separate_setitem _ _ _ _ _ _ Hs7 Hprops Htags Hset).
Qed.

End DeepCopy.


(** The two readings of [generate_new_schema] agree: on the objects of
    version 1, the value of the document that the heap version returns is
    the document that the value version computes. *)
Example generate_new_schema_value_of_objects :
  let registry := [("paint_color", "string"); ("engine_count", "integer")] in
  let '(base, h) := Py.build schema_v1 [] in
  match Py.generate_new_schema 8 base registry 2 h with
  | Ok (schema, h') => Py.dumps 8 [] h' schema = generate_new_schema schema_v1 registry 2
  | Raise _ => False
  end.
Proof. by vm_compute. Qed.

(** * More on the generator *)

Lemma dict_set_set {V} k (v1 v2 : V) d : dict_set k v2 (dict_set k v1 d) = dict_set k v2 d.
Proof.
  induction d as [|[k' v'] d IH]; simpl.
  - by rewrite String.eqb_refl.
  - destruct (String.eqb_spec k k') as [->|Hne]; simpl.
    + by rewrite String.eqb_refl.
    + destruct (String.eqb_spec k k'); [done|]. by rewrite IH.
Qed.

Lemma dict_set_comm {V} k1 k2 (v1 v2 : V) d :
  k1 ≠ k2 → k1 ∈ keys d → k2 ∈ keys d →
  dict_set k1 v1 (dict_set k2 v2 d) = dict_set k2 v2 (dict_set k1 v1 d).
Proof.
  intros Hne. induction d as [|[k' v'] d IH]; simpl; intros H1 H2.
  - by apply elem_of_nil in H1.
  - destruct (String.eqb_spec k2 k') as [->|Hne2]; simpl.
    + destruct (String.eqb_spec k1 k'); [done|]. simpl. by rewrite String.eqb_refl.
    + destruct (String.eqb_spec k1 k') as [->|Hne1]; simpl.
      * by destruct (String.eqb_spec k2 k').
      * destruct (String.eqb_spec k2 k'); [done|].
        apply elem_of_cons in H1 as [?|H1]; [done|].
        apply elem_of_cons in H2 as [?|H2]; [done|]. by rewrite IH.
Qed.

Lemma keys_dict_set {V} k (v : V) d k' : k' ∈ keys (dict_set k v d) ↔ k' = k ∨ k' ∈ keys d.
Proof.
  unfold keys. induction d as [|[k0 v0] d IH]; simpl.
  - rewrite list_elem_of_singleton. split; [by left | intros [?|H]; [done | by apply elem_of_nil in H]].
  - destruct (String.eqb_spec k k0) as [->|Hne]; simpl.
    + rewrite !elem_of_cons. tauto.
    + rewrite !elem_of_cons, IH. tauto.
Qed.

(** The shape of a generated document. *)
Lemma generate_new_schema_Ok base_schema tag_registry new_version doc :
  generate_new_schema base_schema tag_registry new_version = Ok doc →
  ∃ kvs props,
    base_schema = JObject kvs ∧ dict_get "properties" kvs = Some (JObject props) ∧
    doc = JObject
            (dict_set "properties"
               (JObject (dict_set "tags" (tags_definition (build_tag_properties tag_registry))
                           props))
               (dict_set "title" (JStr (schema_title new_version)) kvs)).
Proof.
  unfold generate_new_schema.
  destruct base_schema as [| | | | | |kvs]; try done; simpl.
  rewrite dict_get_set_ne by done.
  destruct (dict_get "properties" kvs) as [[| | | | | |props]|] eqn:Hp; try done; simpl.
  intros [= <-]. by exists kvs, props.
Qed.


(** What the generator leaves alone: below every key of the base other than
    [title] and [properties], and below every key of [properties] other
    than [tags], the generated document reads as the base does. *)
Theorem generate_new_schema_frame
    (base_schema : json) (tag_registry : list (string * string)) (new_version : Z)
    (doc : json) :
  generate_new_schema base_schema tag_registry new_version = Ok doc →
  (∀ key path, key ≠ "title" → key ≠ "properties" →
     json_at (key :: path) doc = json_at (key :: path) base_schema) ∧
  (∀ key path, key ≠ "tags" →
     json_at ("properties" :: key :: path) doc
     = json_at ("properties" :: key :: path) base_schema).
Proof.
  intros (kvs & props & -> & Hp & ->)%generate_new_schema_Ok. split.
  - intros key path H1 H2. simpl. by rewrite !dict_get_set_ne.
  - intros key path H1. simpl. rewrite dict_get_set_eq, Hp.
    by rewrite dict_get_set_ne.
Qed.

Lemma generate_new_schema_frame_witness :
  let base :=
    JObject [("$schema", JStr "https://json-schema.org/draft/2020-12/schema");
             ("title", JStr "old");
             ("properties", JObject [("registration", JObject [("type", JStr "string")]);
                                     ("tags", JObject [])])] in
  ∃ doc, generate_new_schema base [("engine_count", "integer")] 2 = Ok doc ∧
         json_at ["$schema"] doc = Some (JStr "https://json-schema.org/draft/2020-12/schema") ∧
         json_at ["properties"; "registration"; "type"] doc = Some (JStr "string").
Proof.
  intros base.
  destruct (generate_new_schema base [("engine_count", "integer")] 2) as [doc|] eqn:Hgen;
    [|by vm_compute in Hgen].
  exists doc. split; [done|].
  destruct (generate_new_schema_frame base _ 2 doc Hgen) as [Htop Hprops].
  split.
  - by rewrite Htop.
  - by rewrite Hprops.
Defined.

Lemma keys_build_tag_properties_from items acc tag :
  tag ∈ keys acc ∨ tag ∈ keys items →
  tag ∈ keys (fold_left (fun tag_properties '(tag_name, type_name) =>
                           dict_set tag_name (type_name_to_json_schema type_name) tag_properties)
                        items acc).
Proof.
  revert acc. induction items as [|[name ty] items IH]; intros acc; simpl.
  - intros [?|H]; [done | by apply elem_of_nil in H].
  - intros H. apply IH. rewrite keys_dict_set. unfold keys in *. simpl in H.
    rewrite elem_of_cons in H. tauto.
Qed.

Lemma filter_none {A} (P : A → Prop) `{∀ x, Decision (P x)} (l : list A) :
  (∀ x, x ∈ l → ¬ P x) → filter P l = [].
Proof.
  induction l as [|x l IH]; intros Hall; [done|].
  rewrite filter_cons, decide_False by (apply Hall; left).
  apply IH. intros y Hy. apply Hall. by right.
Qed.

Lemma keys_build_tag_properties tag_registry tag :
  tag ∈ keys tag_registry → tag ∈ keys (build_tag_properties tag_registry).
Proof.
  intros Hin. apply keys_build_tag_properties_from. right.
  unfold keys in *. by rewrite sorted_Permutation.
Qed.

Lemma check_for_new_tags_generated base_schema tag_registry new_version doc :
  generate_new_schema base_schema tag_registry new_version = Ok doc →
  check_for_new_tags tag_registry doc = Ok [].
Proof.
  intros Hgen.
  pose proof (generate_new_schema_tag_properties _ _ _ _ Hgen) as Hat.
  unfold check_for_new_tags.
  rewrite (get_existing_tag_definitions_at _ _ Hat). simpl.
  rewrite tags_not_in_dict. f_equal. apply filter_none.
  intros tag Htag Hnot. by apply Hnot, keys_build_tag_properties.
Qed.

(** Every name of the registry is declared by the schema generated from it,
    so the differ finds no new tag in it. *)
Theorem generate_then_check_for_new_tags
    (base_schema : json) (tag_registry : list (string * string)) (new_version : Z)
    (doc : json) :
  generate_new_schema base_schema tag_registry new_version = Ok doc →
  check_for_new_tags tag_registry doc = Ok [].
Proof.
  intros Hgen.
  pose proof (generate_new_schema_tag_properties _ _ _ _ Hgen) as Hat.
  unfold check_for_new_tags.
  rewrite (get_existing_tag_definitions_at _ _ Hat). simpl.
  rewrite tags_not_in_dict. f_equal. apply filter_none.
  intros tag Htag Hnot. by apply Hnot, keys_build_tag_properties.
Qed.

Lemma generate_then_check_for_new_tags_witness :
  let registry := [("paint_color", "string"); ("engine_count", "integer")] in
  ∃ doc, generate_new_schema schema_v1 registry 2 = Ok doc ∧
         check_for_new_tags registry schema_v1 = Ok ["paint_color"; "engine_count"] ∧
         check_for_new_tags registry doc = Ok [].
Proof.
  intros registry.
  destruct (generate_new_schema schema_v1 registry 2) as [doc|] eqn:Hgen;
    [|by vm_compute in Hgen].
  exists doc. split; [done|]. split; [reflexivity|].
  exact (generate_then_check_for_new_tags schema_v1 registry 2 doc Hgen).
Defined.

(** Generating from a generated document gives what generating from its
    base gives: a chain of versions carries nothing over from the registry
    or the version number of an earlier step. *)
Theorem generate_new_schema_chain
    (base_schema : json) (registry1 registry2 : list (string * string))
    (version1 version2 : Z) (doc1 : json) :
  generate_new_schema base_schema registry1 version1 = Ok doc1 →
  generate_new_schema doc1 registry2 version2
  = generate_new_schema base_schema registry2 version2.
Proof.
  intros (kvs & props & -> & Hp & ->)%generate_new_schema_Ok.
  unfold generate_new_schema. simpl.
  rewrite !(dict_get_set_ne "properties" "title") by done.
  rewrite dict_get_set_eq, Hp. simpl.
  f_equal. f_equal.
  assert ("properties" ∈ keys kvs) as Hin.
  { destruct (decide ("properties" ∈ keys kvs)) as [|Hn]; [done|].
    apply dict_get_None in Hn. congruence. }
  rewrite (dict_set_comm "title" "properties").
  - by rewrite !dict_set_set.
  - done.
  - apply keys_dict_set. by left.
  - apply keys_dict_set. by right.
Qed.

Lemma generate_new_schema_chain_witness :
  let registry1 := [("engine_count", "integer")] in
  let registry2 := [("engine_count", "integer"); ("paint_color", "string")] in
  ∃ doc2, generate_new_schema schema_v1 registry1 2 = Ok doc2 ∧
          generate_new_schema doc2 registry2 3 = generate_new_schema schema_v1 registry2 3.
Proof.
  intros registry1 registry2.
  destruct (generate_new_schema schema_v1 registry1 2) as [doc2|] eqn:Hgen;
    [|by vm_compute in Hgen].
  exists doc2. split; [done|].
  exact (generate_new_schema_chain schema_v1 registry1 registry2 2 3 doc2 Hgen).
Defined.

(** The fragment for a type name: one of the seven names is declared under
    [type] as it is; any other name gives the reference to the generic tag
    value. *)
Theorem type_name_to_json_schema_spec (type_name : string) :
  (type_name ∈ json_type_names →
   json_at ["type"] (type_name_to_json_schema type_name) = Some (JStr type_name)) ∧
  (type_name ∉ json_type_names →
   type_name_to_json_schema type_name = JObject [("$ref", JStr "#/$defs/tagValue")]).
Proof.
  unfold type_name_to_json_schema, json_type_names. split.
  - intros Hin. repeat (apply elem_of_cons in Hin as [->|Hin]; [reflexivity|]).
    by apply elem_of_nil in Hin.
  - intros Hnot. simpl.
    repeat match goal with
    | |- context [String.eqb type_name ?s] =>
        destruct (String.eqb_spec type_name s) as [->|_];
        [destruct Hnot; repeat ((by left) || right)|]
    end.
    reflexivity.
Qed.

Lemma type_name_to_json_schema_spec_witness :
  json_at ["type"] (type_name_to_json_schema "integer") = Some (JStr "integer") ∧
  type_name_to_json_schema "tuple" = JObject [("$ref", JStr "#/$defs/tagValue")].
Proof.
  split.
  - apply (type_name_to_json_schema_spec "integer"). by repeat ((by left) || right).
  - apply (type_name_to_json_schema_spec "tuple").
    intros Hin. repeat (apply elem_of_cons in Hin as [?|Hin]; [done|]).
    by apply elem_of_nil in Hin.
Defined.


(** * More on the schema directory *)

Lemma get_latest_schema_version_iff (st : store) v :
  get_latest_schema_version st = Ok v ↔ v ∈ dom st ∧ ∀ k, k ∈ dom st → k ≤ v.
Proof.
  split; [apply get_latest_schema_version_spec|]. intros [Hin Hmax].
  destruct (get_latest_schema_version st) as [v'|e] eqn:Hl.
  - apply get_latest_schema_version_spec in Hl as [Hin' Hmax'].
    f_equal. specialize (Hmax _ Hin'). specialize (Hmax' _ Hin). lia.
  - unfold get_latest_schema_version in Hl.
    destruct (elements (dom st)) as [|v0 vs] eqn:E; [|done].
    apply elem_of_elements in Hin. rewrite E in Hin. by apply elem_of_nil in Hin.
Qed.

(** A document stored under the successor of the latest version is the
    latest. *)
Lemma get_latest_schema_version_next (st : store) v doc :
  get_latest_schema_version st = Ok v →
  get_latest_schema_version (<[v + 1 := doc]> st) = Ok (v + 1).
Proof.
  intros [_ Hmax]%get_latest_schema_version_spec.
  apply get_latest_schema_version_iff. split.
  - apply elem_of_dom. rewrite lookup_insert_eq. by eexists.
  - intros k Hk. apply elem_of_dom in Hk as [d Hk].
    destruct (decide (k = v + 1)) as [->|Hne]; [lia|].
    rewrite lookup_insert_ne in Hk by done.
    assert (k ≤ v) by (apply Hmax, elem_of_dom; by eexists). lia.
Qed.

Lemma create_new_schema_version_again tag_registry check_only st st' v new_tags :
  create_new_schema_version tag_registry false st = (Ok (Some v, new_tags), st') →
  get_latest_schema_version st' = Ok v ∧
  create_new_schema_version tag_registry check_only st' = (Ok (None, []), st').
Proof.
  intros (latest & cur & Hl & Hcur & Htags & -> & doc & Hgen & ->)%create_new_schema_version_Some.
  pose proof (get_latest_schema_version_next st latest doc Hl) as Hl'.
  split; [done|].
  unfold create_new_schema_version. rewrite Hl'. unfold load_schema. simpl.
  rewrite lookup_insert_eq.
  by rewrite (check_for_new_tags_generated _ _ _ _ Hgen).
Qed.









(** ** The command line *)



(** ** Write mode, then check mode *)

Lemma create_new_schema_version_None tag_registry check_only st new_tags st' :
  create_new_schema_version tag_registry check_only st = (Ok (None, new_tags), st') →
  new_tags = [] ∧ st' = st ∧
  ∀ check_only', create_new_schema_version tag_registry check_only' st = (Ok (None, []), st).
Proof.
  unfold create_new_schema_version.
  destruct (get_latest_schema_version st) as [latest|]; [|done].
  destruct (load_schema (Some latest) st) as [cur|]; [|done].
  destruct (check_for_new_tags tag_registry cur) as [tags|]; [|done].
  destruct (decide (tags = [])) as [->|Htags].
  - by intros [= <- <-].
  - rewrite bool_decide_eq_false_2 by done. destruct check_only; [done|]. simpl.
    by destruct (generate_new_schema cur tag_registry (latest + 1)).
Qed.



(** ** More on [validate_submission] *)

Section ValidatorMore.
Variable iter_errors : json → json → list validation_error.
Variable schema_file : result json.

Lemma mjoin_imap_nil {A B} (f : nat → A → list B) (l : list A) :
  mjoin (imap f l) = [] ↔ ∀ i x, l !! i = Some x → f i x = [].
Proof.
  revert f. induction l as [|x l IH]; intros f; simpl.
  - split; [by intros _ i x|done].
  - rewrite app_nil, IH. split.
    + intros [Hx Hl] [|i] y; simpl; [by intros [= <-]|]. apply Hl.
    + intros Hall. split; [by apply (Hall 0%nat)|]. intros i y. apply (Hall (S i)).
Qed.


(** A batch of one submission reads as the submission alone, without an
    index before the errors, unless the submission is itself an array,
    which is read as a batch. *)
Theorem validate_submission_batch_of_one (submission : json) (schema : option json) :
  (∀ xs, submission ≠ JArray xs) →
  Schema.validate_submission (Some iter_errors) schema_file (JArray [submission]) schema
  = Schema.validate_submission (Some iter_errors) schema_file submission schema.
Proof. intros Hne. destruct submission; try done. by destruct (Hne xs). Qed.
End ValidatorMore.

Lemma validate_submission_batch_of_one_witness :
  let iter_errors := fun (_ submission : json) =>
    match submission with
    | JObject _ => []
    | _ => [ {| path := []; message := "not an object" |} ]
    end in
  Schema.validate_submission (Some iter_errors) (Raise NotFoundError) (JArray [JInt 7])
    (Some schema_v1)
  = Schema.validate_submission (Some iter_errors) (Raise NotFoundError) (JInt 7) (Some schema_v1)
  ∧ Schema.validate_submission (Some iter_errors) (Raise NotFoundError) (JInt 7) (Some schema_v1)
    = Ok ["(root): not an object"].
Proof.
  intros iter_errors. split; [|reflexivity].
  by apply (validate_submission_batch_of_one iter_errors (Raise NotFoundError) (JInt 7)).
Defined.




(** * What a match is made of *)

Section ReSound.
Import Re.

(** A repetition that succeeds has taken a run of characters of the set,
    at least [lo] of them, and the continuation has succeeded after it. *)
Lemma repeat_run_sound greedy items k lo hi pos s m :
  repeat_run greedy items k lo hi pos s = Some m →
  ∃ a b, s = a +:+ b ∧ string_forallb (in_set items) a = true ∧
         (lo ≤ String.length a)%nat ∧ k (pos + String.length a)%nat b = Some m.
Proof.
  revert lo hi pos. induction s as [|c s IH]; intros lo hi pos Hrun.
  - assert (lo = 0%nat ∧ k pos "" = Some m) as [-> Hk].
    { simpl in Hrun. destruct greedy, lo, hi as [[|?]|]; try done;
        by destruct (k pos ""). }
    exists "", "". rewrite Nat.add_0_r. by repeat split.
  - assert ((lo = 0%nat ∧ k pos (String c s) = Some m) ∨
            (in_set items c = true ∧
             repeat_run greedy items k (Nat.pred lo) (Nat.pred <$> hi) (S pos) s = Some m))
      as [[-> Hk] | [Hc Hrec]].
    { simpl in Hrun. 
      destruct greedy, lo, hi as [[|?]|], (in_set items c); simpl in Hrun;
        try done; try (by left); try (by right);
        match type of Hrun with
        | match ?x with _ => _ end = _ => destruct x eqn:?; simplify_eq; (by left) || (by right)
        end. }
    + exists "", (String c s). rewrite Nat.add_0_r. by repeat split.
    + destruct (IH _ _ _ Hrec) as (a & b & -> & Ha & Hlo & Hk).
      exists (String c a), b. rewrite append_cons. simpl. rewrite Hc, Ha.
      repeat split; [lia|]. rewrite <- Hk. f_equal. lia.
Qed.

(** A success of [run] is a success of the continuation, further on in the
    text; only a group changes what group 1 holds. *)
Lemma run_consumes r : ∀ st k m,
  run r st k = Some m →
  ∃ t st', rest st = t +:+ rest st' ∧ pos st' = (pos st + String.length t)%nat ∧
           (group_free r = true → group1 st' = group1 st) ∧ k st' = Some m.
Proof.
  induction r as [|items|r1 IH1 r2 IH2|r1 IH1 r2 IH2|greedy lo hi items|r IH|r IH| |];
    intros st k m Hrun; simpl in Hrun.
  - exists "", st. rewrite Nat.add_0_r. by repeat split.
  - destruct (rest st) as [|c s] eqn:Hrest; [done|].
    destruct (in_set items c); [|done].
    exists (String c ""), (MState (S (pos st)) s (group1 st)).
    split_and!; simpl; [done|lia|done|done].
  - destruct (IH1 _ _ _ Hrun) as (t1 & st1 & Hr1 & Hp1 & Hg1 & Hk1).
    destruct (IH2 _ _ _ Hk1) as (t2 & st2 & Hr2 & Hp2 & Hg2 & Hk2).
    exists (t1 +:+ t2), st2. split_and!; [| | |done].
    + by rewrite Hr1, Hr2, append_assoc.
    + rewrite append_length. lia.
    + simpl. intros [H1 H2]%andb_true_iff. by rewrite Hg2, Hg1.
  - destruct (run r1 st k) as [m'|] eqn:H1.
    + injection Hrun as ->. destruct (IH1 _ _ _ H1) as (t & st' & ? & ? & Hg & ?).
      exists t, st'. split_and!; try done. simpl. intros [? _]%andb_true_iff. by apply Hg.
    + destruct (IH2 _ _ _ Hrun) as (t & st' & ? & ? & Hg & ?).
      exists t, st'. split_and!; try done. simpl. intros [_ ?]%andb_true_iff. by apply Hg.
  - apply repeat_run_sound in Hrun as (a & b & Hab & _ & _ & Hk).
    by exists a, (MState (pos st + String.length a) b (group1 st)).
  - destruct (IH _ _ _ Hrun) as (t & st' & ? & ? & _ & Hk).
    by eexists t, (MState (pos st') (rest st') _); split_and!; [..|exact Hk].
  - destruct (run r st Some) as [st1|] eqn:Hla; [|done].
    destruct (IH _ _ _ Hla) as (_ & st' & _ & _ & Hg & [= ->]).
    exists "", (MState (pos st) (rest st) (group1 st1)).
    split_and!; simpl; [done|lia|done|done].
  - assert (k st = Some m) as Hk by (by destruct (pos st)).
    exists "", st. rewrite Nat.add_0_r. by repeat split.
  - assert (k st = Some m) as Hk.
    { destruct (rest st) as [|c [|c' s]]; [done| |done]. by destruct (Ascii.eqb c newline). }
    exists "", st. rewrite Nat.add_0_r. by repeat split.
Qed.

(** The expressions of a sequence that come before a group leave group 1
    as it was. *)
Lemma run_seq_app rs1 rs2 st k m :
  forallb group_free rs1 = true →
  run (seq (rs1 ++ rs2)) st k = Some m →
  ∃ t st', rest st = t +:+ rest st' ∧ pos st' = (pos st + String.length t)%nat ∧
           group1 st' = group1 st ∧ run (seq rs2) st' k = Some m.
Proof.
  revert st. induction rs1 as [|r rs1 IH]; intros st Hfree Hrun.
  - exists "", st. rewrite Nat.add_0_r. by repeat split.
  - simpl in Hfree. apply andb_true_iff in Hfree as [Hr Hfree].
    change ((r :: rs1) ++ rs2) with (r :: (rs1 ++ rs2)) in Hrun.
    rewrite run_seq_cons in Hrun.
    apply run_consumes in Hrun as (t1 & st1 & Hr1 & Hp1 & Hg1 & Hk1).
    destruct (IH _ Hfree Hk1) as (t2 & st2 & Hr2 & Hp2 & Hg2 & Hk2).
    exists (t1 +:+ t2), st2. split_and!; [| | |done].
    + by rewrite Hr1, Hr2, append_assoc.
    + rewrite append_length. lia.
    + by rewrite Hg2, Hg1.
Qed.

Lemma word_group_free w : forallb group_free (word w) = true.
Proof. by induction w. Qed.

(** Where [search] and [finditer] find a match, the pattern matches. *)
Lemma search_from_sound r pos s m :
  search_from r pos s = Some m →
  ∃ pre s', s = pre +:+ s' ∧ match_at r (pos + String.length pre) s' = Some m.
Proof.
  revert pos. induction s as [|c s IH]; intros pos; cbn [search_from].
  - destruct (match_at r pos "") eqn:Hm; [|done]. intros [= ->].
    exists "", "". by rewrite Nat.add_0_r.
  - destruct (match_at r pos (String c s)) eqn:Hm.
    + intros [= ->]. exists "", (String c s). by rewrite Nat.add_0_r.
    + intros (pre & s' & -> & Hs')%IH. exists (String c pre), s'. split; [done|].
      rewrite <- Hs'. f_equal. simpl. lia.
Qed.

Lemma finditer_from_sound r s : ∀ pos skip m,
  m ∈ finditer_from r pos s skip →
  ∃ pre s', s = pre +:+ s' ∧ match_at r (pos + String.length pre) s' = Some m.
Proof.
  induction s as [|c s IH]; intros pos skip m; cbn [finditer_from].
  - destruct skip; [|by intros ?%elem_of_nil].
    destruct (match_at r pos "") eqn:Hm; [|by intros ?%elem_of_nil].
    intros ->%list_elem_of_singleton. exists "", "". by rewrite Nat.add_0_r.
  - assert (∀ skip', m ∈ finditer_from r (S pos) s skip' →
        ∃ pre s', String c s = pre +:+ s' ∧ match_at r (pos + String.length pre) s' = Some m)
      as Hnext.
    { intros skip' (pre & s' & -> & Hs')%IH. exists (String c pre), s'. split; [done|].
      rewrite <- Hs'. f_equal. simpl. lia. }
    destruct skip; [|by apply Hnext].
    destruct (match_at r pos (String c s)) eqn:Hm; [|by apply Hnext].
    intros [->|Hin]%elem_of_cons; [|by eapply Hnext].
    exists "", (String c s). by rewrite Nat.add_0_r.
Qed.
End ReSound.

(** ** More on [strip] *)

Lemma string_forallb_app p a b :
  string_forallb p (a +:+ b) = string_forallb p a && string_forallb p b.
Proof.
  induction a as [|c a IH]; [done|]. rewrite append_cons. simpl. by rewrite IH, andb_assoc.
Qed.

Lemma rstrip_split s : ∃ ws, s = rstrip s +:+ ws ∧ all_space ws = true.
Proof.
  induction s as [|c s (ws & Hs & Hws)]; [by exists ""|]. simpl.
  destruct (rstrip s) as [|c' t] eqn:Ht.
  - rewrite append_nil_l in Hs. subst ws. destruct (Re.isspace c) eqn:Hc.
    + exists (String c s). split; [done|]. unfold all_space in *. simpl. by rewrite Hc.
    + by exists s.
  - exists ws. split; [|done]. by rewrite append_cons, <- Hs.
Qed.

Lemma rstrip_idem s : rstrip (rstrip s) = rstrip s.
Proof.
  induction s as [|c s IH]; [done|]. simpl.
  destruct (rstrip s) as [|c' t] eqn:Ht.
  - destruct (Re.isspace c) eqn:Hc; [done|]. simpl. by rewrite Hc.
  - change (rstrip (String c (String c' t)))
      with (match rstrip (String c' t) with
            | "" => if Re.isspace c then "" else String c ""
            | t' => String c t'
            end).
    by rewrite IH.
Qed.

(** [rstrip] keeps a first character that is not blank. *)
Lemma rstrip_head c s :
  Re.isspace c = false → ∃ t, rstrip (String c s) = String c t.
Proof. intros Hc. simpl. rewrite Hc. destruct (rstrip s); by eexists. Qed.

Lemma lstrip_head s : lstrip s = "" ∨ ∃ c t, lstrip s = String c t ∧ Re.isspace c = false.
Proof.
  induction s as [|c s IH]; [by left|]. simpl.
  destruct (Re.isspace c) eqn:Hc; [done|]. right. by exists c, s.
Qed.

Lemma strip_idem s : strip (strip s) = strip s.
Proof.
  unfold strip. destruct (lstrip_head s) as [-> | (c & t & -> & Hc)]; [done|].
  destruct (rstrip_head c t Hc) as [u Hu]. rewrite Hu. cbn [lstrip]. rewrite Hc.
  by rewrite <- Hu, rstrip_idem.
Qed.

(** [strip] takes blanks off both ends. *)
Lemma strip_split s :
  ∃ x y, s = x +:+ strip s +:+ y ∧ all_space x = true ∧ all_space y = true.
Proof.
  destruct (lstrip_split s) as (x & r & -> & Hx & _ & Hl).
  destruct (rstrip_split r) as (y & Hr & Hy).
  exists x, y. unfold strip. rewrite Hl. by rewrite <- Hr.
Qed.

Lemma strip_no_newline s : no_newline s = true → no_newline (strip s) = true.
Proof.
  destruct (strip_split s) as (x & y & Hs & _ & _). unfold no_newline. rewrite Hs at 1.
  rewrite !string_forallb_app. by intros [_ [? _]%andb_true_iff]%andb_true_iff.
Qed.

Lemma occurs_in_trans a b c : occurs_in a b → occurs_in b c → occurs_in a c.
Proof.
  intros (x & y & ->) (x' & y' & ->). exists (x' +:+ x), (y +:+ y').
  by rewrite !append_assoc.
Qed.

Lemma strip_occurs_in s : occurs_in (strip s) s.
Proof. destruct (strip_split s) as (x & y & Hs & _). by exists x, y. Qed.

(** ** The contributor's name *)

Section ContributorProofs.
Import Re.

Lemma in_set_any_but_newline c :
  in_set any_but_newline c = negb (Ascii.eqb c newline).
Proof. by destruct c as [[] [] [] [] [] [] [] []]. Qed.

(** Where the pattern matches, group 1 is a piece of the text, not empty
    and within one line. *)
Lemma contributor_match p s m :
  match_at contributor_name_regex p s = Some m →
  ∃ name, m_group1 m = Some name ∧ occurs_in name s ∧ name ≠ "" ∧ no_newline name = true.
Proof.
  unfold match_at.
  destruct (run contributor_name_regex (MState p s None) Some) as [st|] eqn:Hrun; [|done].
  intros [= <-]. cbn [m_group1].
  unfold contributor_name_regex in Hrun.
  change (word "### Contributor Name" ++ [spaces; nl; spaces; ?g; name_end])
    with ((word "### Contributor Name" ++ [spaces; nl; spaces]) ++ [g; name_end]) in Hrun.
  apply run_seq_app in Hrun as (t & st1 & Hs & _ & _ & Hrun); [|done].
  cbn [rest] in Hs.
  cbn [seq run] in Hrun.
  apply repeat_run_sound in Hrun as (a & b & Hab & Ha & Hlen & Hk).
  apply run_consumes in Hk as (_ & st3 & _ & _ & Hg & [= ->]).
  cbn [group1] in Hg. rewrite Hg by done. cbn [pos].
  replace (pos st1 + String.length a - pos st1)%nat with (String.length a) by lia.
  rewrite Hab, substring_prefix.
  exists a. split_and!; [done| | |].
  - exists t, b. by rewrite Hs, Hab.
  - destruct a; [simpl in Hlen; lia | done].
  - unfold no_newline. by rewrite <- (string_forallb_ext _ _ _ in_set_any_but_newline).
Qed.

(** A name that is returned is a piece of the body, not empty, not the
    placeholder of an empty field, within one line and without blanks at
    its ends. *)
Theorem extract_contributor_name_safe (body name : string) :
  extract_contributor_name_from_issue_body body = Some name →
  name ≠ "" ∧ name ≠ "_No response_" ∧ strip name = name ∧
  no_newline name = true ∧ occurs_in name body.
Proof.
  unfold extract_contributor_name_from_issue_body, search.
  destruct (search_from contributor_name_regex 0 body) as [m|] eqn:Hm; [|done].
  apply search_from_sound in Hm as (pre & s' & -> & Hm).
  apply contributor_match in Hm as (g & Hg & Hocc & _ & Hnl).
  unfold group_1. rewrite Hg. cbn [default from_option]. unfold id.
  cbv zeta. destruct (bool_decide (strip g ≠ "")) eqn:H1; cbn [andb]; [|done].
  destruct (bool_decide (strip g ≠ "_No response_")) eqn:H2; [|done].
  intros [= <-]. apply bool_decide_eq_true in H1, H2.
  split_and!; [done|done|apply strip_idem|by apply strip_no_newline|].
  eapply occurs_in_trans; [apply strip_occurs_in|].
  eapply occurs_in_trans; [exact Hocc|]. exists pre, "". by rewrite append_nil_r.
Qed.
End ContributorProofs.

Section ContributorStandard.
Import Re.

Lemma lazy_one items k pos c s :
  in_set items c = true →
  repeat_run false items k 1 None pos (String c s)
  = repeat_run false items k 0 None (S pos) s.
Proof. intros Hc. simpl. by rewrite Hc. Qed.

(** A lazy repetition goes over a run of the set after no part of which the
    continuation succeeds. *)
Lemma lazy_run items k pos t r :
  string_forallb (in_set items) t = true →
  (∀ t1 t2, t = t1 +:+ t2 → t2 ≠ "" → k (pos + String.length t1)%nat (t2 +:+ r) = None) →
  repeat_run false items k 0 None pos (t +:+ r)
  = repeat_run false items k 0 None (pos + String.length t) r.
Proof.
  revert pos. induction t as [|c t IH]; intros pos Hall Hfail.
  - simpl. by rewrite Nat.add_0_r.
  - rewrite append_cons. simpl in Hall. apply andb_true_iff in Hall as [Hc Hall].
    rewrite lazy_step; [| |done].
    + rewrite IH; [f_equal; simpl; lia | done |].
      intros t1 t2 -> Ht2. specialize (Hfail (String c t1) t2 eq_refl Ht2).
      simpl in Hfail. by rewrite Nat.add_succ_r in Hfail.
    + specialize (Hfail "" (String c t) eq_refl).
      simpl in Hfail. rewrite Nat.add_0_r in Hfail. by apply Hfail.
Qed.

Lemma search_from_here r pos s m :
  match_at r pos s = Some m → search_from r pos s = Some m.
Proof. intros Hm. destruct s; cbn [search_from]; by rewrite Hm. Qed.

Lemma prefix_split w s : String.prefix w s = true → ∃ r, s = w +:+ r.
Proof.
  revert s. induction w as [|c w IH]; intros s; [by exists s|].
  destruct s as [|c' s]; [done|]. cbn [String.prefix].
  destruct (ascii_dec c c') as [<-|]; [|done].
  intros [r ->]%IH. by exists r.
Qed.

Lemma run_name_end st k :
  run name_end st k
  = match run (Alt (seq (nl :: word "###")) (Alt (seq [nl; nl]) Eol)) st Some with
    | Some st' => k (MState (pos st) (rest st) (group1 st'))
    | None => None
    end.
Proof. reflexivity. Qed.

(** The lookahead fails before a character that is not a line break ... *)
Lemma name_end_fail p c s g k :
  c ≠ newline → run name_end (MState p (String c s) g) k = None.
Proof.
  intros Hc. rewrite run_name_end, !run_alt.
  rewrite run_nl_fail by done.
  rewrite (run_nl_fail [nl]) by done.
  cbn [run rest]. destruct s; [|done]. by destruct (Ascii.eqb_spec c newline).
Qed.

(** ... and succeeds where the field ends. *)
Lemma name_end_ok p post g k :
  ends_field post = true →
  run name_end (MState p post g) k = k (MState p post g).
Proof.
  intros Hpost. rewrite run_name_end.
  destruct (run _ _ Some) as [st'|] eqn:Hrun.
  - apply run_consumes in Hrun as (_ & st'' & _ & _ & Hg & [= ->]).
    cbn [pos rest group1] in *. by rewrite Hg.
  - exfalso. rewrite !run_alt in Hrun.
    destruct (run (seq (nl :: word "###")) _ Some) eqn:HA; [done|].
    destruct (run (seq [nl; nl]) _ Some) eqn:HB; [done|].
    unfold ends_field in Hpost.
    apply orb_true_iff in Hpost as [[[H|H]%orb_true_iff|H]%orb_true_iff|H].
    + apply bool_decide_eq_true in H as ->. done.
    + apply bool_decide_eq_true in H as ->. done.
    + apply prefix_split in H as [r ->].
      rewrite append_assoc, run_nl_ok in HA.
      change (seq (word "###")) with (seq (word "###" ++ [])) in HA.
      by rewrite run_word_ok in HA.
    + apply prefix_split in H as [r ->].
      rewrite append_assoc, run_nl_ok in HB. cbn [seq] in HB. unfold nl at 1 in HB.
      unfold NL in HB. rewrite append_cons in HB. cbn [run rest] in HB.
      by rewrite in_set_char, Ascii.eqb_refl in HB.
Qed.

Lemma no_newline_in_set s :
  string_forallb (in_set any_but_newline) s = no_newline s.
Proof. apply string_forallb_ext, in_set_any_but_newline. Qed.

(** From the start of the name on: the group takes the line. *)
Lemma name_ok p line post g :
  line ≠ "" → no_newline line = true → ends_field post = true →
  run (seq [Group (Repeat false 1 None any_but_newline); name_end])
      (MState p (line +:+ post) g) Some
  = Some (MState (p + String.length line) post (Some line)).
Proof.
  intros Hne Hline Hpost. rewrite run_seq_cons. cbn [run seq pos rest group1].
  destruct line as [|c line]; [done|]. clear Hne.
  rewrite <- no_newline_in_set in Hline. cbn [string_forallb] in Hline.
  apply andb_true_iff in Hline as [Hc Hline].
  rewrite append_cons, lazy_one by done.
  rewrite lazy_run; [|done|].
  - apply lazy_here. rewrite name_end_ok by done. cbn [pos rest]. f_equal.
    rewrite <- append_cons.
    replace (S p + String.length line - p)%nat with (String.length (String c line))
      by (simpl; lia).
    rewrite substring_prefix. f_equal. simpl. lia.
  - intros t1 t2 -> Ht2. destruct t2 as [|c2 t2]; [done|]. rewrite append_cons.
    apply name_end_fail. rewrite string_forallb_app in Hline.
    apply andb_true_iff in Hline as [_ Hline]. cbn [string_forallb] in Hline.
    apply andb_true_iff in Hline as [Hc2 _]. rewrite in_set_any_but_newline in Hc2.
    intros ->. by rewrite Ascii.eqb_refl in Hc2.
Qed.

Lemma no_newline_head_line line post :
  line ≠ "" → no_newline line = true → no_newline_head (line +:+ post).
Proof.
  destruct line as [|c line]; [done|]. intros _. unfold no_newline. simpl.
  intros [Hc _]%andb_true_iff ->. by rewrite Ascii.eqb_refl in Hc.
Qed.

Lemma stops_space_line line post :
  line ≠ "" → lstrip line = line → stops [SSpace] (line +:+ post).
Proof.
  destruct line as [|c line]; [done|]. intros _. rewrite append_cons. unfold stops.
  rewrite in_set_space. cbn [lstrip]. destruct (isspace c) eqn:Hc; [|done].
  intros Heq. exfalso. destruct (lstrip_split line) as (ws & r & Hl & _ & _ & Hr).
  assert (String.length (lstrip line) ≤ String.length line)%nat as Hlen.
  { rewrite Hr, Hl, append_length. lia. }
  rewrite Heq in Hlen. simpl in Hlen. lia.
Qed.

(** At the heading of the field, the pattern matches and group 1 is the
    first line that is not blank. *)
Lemma contributor_matches p ws line post :
  all_space ws = true → has_newline ws = true →
  line ≠ "" → no_newline line = true → lstrip line = line →
  ends_field post = true →
  ∃ m, match_at contributor_name_regex p ("### Contributor Name" +:+ ws +:+ line +:+ post)
       = Some m ∧ m_group1 m = Some line.
Proof.
  intros Hws Hnl Hne Hline Hl Hpost.
  destruct (last_newline_split _ Hws Hnl) as (a & b & -> & Ha & Hb & Hnob).
  unfold match_at, contributor_name_regex. rewrite run_word_ok. cbn [String.length].
  assert (run (seq [spaces; nl; spaces; Group (Repeat false 1 None any_but_newline); name_end])
            (MState (p + 20) ((a +:+ NL +:+ b) +:+ line +:+ post) None) Some
          = Some (MState (S (p + 20 + String.length a) + String.length b + String.length line)
                    post (Some line))) as ->; [|by eexists].
  rewrite run_seq_cons. unfold spaces at 1. cbn [run rest pos group1].
  rewrite !append_assoc. rewrite <- (append_assoc NL b).
  apply greedy_succ.
  - unfold all_space in Ha. by rewrite (string_forallb_ext _ isspace) by apply in_set_space.
  - rewrite (string_forallb_ext _ isspace) by apply in_set_space.
    unfold NL. rewrite append_cons, append_nil_l. cbn [string_forallb].
    unfold all_space in Hb. by rewrite Hb.
  - apply stops_space_line; done.
  - intros b1 b2 Heq Hb1. apply run_nl_fail.
    eapply after_last_newline; [exact Hnob| |exact Heq|exact Hb1].
    by apply no_newline_head_line.
  - rewrite append_assoc, run_nl_ok.
    rewrite run_seq_cons. unfold spaces at 1. cbn [run rest pos group1].
    rewrite <- (append_nil_l (line +:+ post)).
    apply greedy_succ.
    + unfold all_space in Hb. by rewrite (string_forallb_ext _ isspace) by apply in_set_space.
    + done.
    + by apply stops_space_line.
    + intros b1 b2 Heq Hb1. by destruct b1.
    + rewrite append_nil_l. apply name_ok; done.
Qed.

Lemma no_contributor_heading_inside pre p1 p2 tail :
  is_substring "### Contributor Name" (pre +:+ "### Contributor Nam") = false →
  pre = p1 +:+ p2 → p2 ≠ "" →
  String.prefix "### Contributor Name" (p2 +:+ "### Contributor Name" +:+ tail) = false.
Proof.
  intros Hsub -> Hp2. rewrite append_assoc in Hsub.
  apply is_substring_app_false, is_substring_false_prefix in Hsub.
  change ("### Contributor Name" +:+ tail) with ("### Contributor Nam" +:+ "e" +:+ tail).
  rewrite <- append_assoc, prefix_app_long; [done|].
  rewrite append_length. destruct p2; [done|]. simpl. lia.
Qed.

(** The field of the issue form, as GitHub renders it: at the first
    heading [### Contributor Name], after blanks with a line break, a line
    that ends the text or is followed by an empty line or by the next
    heading.  The line is returned without its blanks, unless it is the
    placeholder of an empty field. *)
Theorem extract_contributor_name_standard (pre ws line post : string) :
  is_substring "### Contributor Name" (pre +:+ "### Contributor Nam") = false →
  all_space ws = true → has_newline ws = true →
  line ≠ "" → no_newline line = true → lstrip line = line →
  ends_field post = true →
  extract_contributor_name_from_issue_body
    (pre +:+ "### Contributor Name" +:+ ws +:+ line +:+ post)
  = if bool_decide (rstrip line = "_No response_") then None else Some (rstrip line).
Proof.
  intros Hpre Hws Hnl Hne Hline Hl Hpost.
  destruct (contributor_matches (0 + String.length pre) ws line post)
    as (m & Hm & Hg); try done.
  unfold extract_contributor_name_from_issue_body, search.
  rewrite search_from_skip.
  - assert (search_from contributor_name_regex (0 + String.length pre)
              ("### Contributor Name" +:+ ws +:+ line +:+ post) = Some m) as ->.
    { by apply search_from_here. }
    unfold group_1. rewrite Hg. cbn [default from_option]. unfold id. cbv zeta.
    unfold strip. rewrite Hl.
    assert (rstrip line ≠ "") as Hr.
    { destruct line as [|c line]; [done|].
      pose proof (stops_space_line (String c line) "" Hne Hl) as Hc.
      rewrite append_cons in Hc. unfold stops in Hc. rewrite in_set_space in Hc.
      destruct (rstrip_head c line Hc) as [t ->]. done. }
    rewrite (bool_decide_eq_true_2 _ Hr). cbn [andb].
    by case_bool_decide; case_bool_decide.
  - intros p1 p2 Heq Hp2. unfold match_at, contributor_name_regex.
    rewrite run_word_fail; [done|]. by eapply no_contributor_heading_inside.
Qed.
End ContributorStandard.

Lemma extract_contributor_name_standard_witness :
  extract_contributor_name_from_issue_body
    (("### Title" +:+ NL +:+ NL +:+ "x" +:+ NL +:+ NL) +:+ "### Contributor Name"
     +:+ (NL +:+ NL) +:+ "Jane Doe  " +:+ (NL +:+ NL +:+ "### Submission JSON"))
  = Some "Jane Doe" ∧
  extract_contributor_name_from_issue_body
    ("" +:+ "### Contributor Name" +:+ (NL +:+ NL) +:+ "_No response_" +:+ "")
  = None.
Proof.
  split.
  - apply (extract_contributor_name_standard
             ("### Title" +:+ NL +:+ NL +:+ "x" +:+ NL +:+ NL) (NL +:+ NL) "Jane Doe  "
             (NL +:+ NL +:+ "### Submission JSON")); by vm_compute.
  - apply (extract_contributor_name_standard "" (NL +:+ NL) "_No response_" "");
      by vm_compute.
Defined.

Lemma extract_contributor_name_safe_witness :
  let body := "### Contributor Name" +:+ NL +:+ NL +:+ " Jane Doe " +:+ NL in
  extract_contributor_name_from_issue_body body = Some "Jane Doe" ∧
  "Jane Doe" ≠ "" ∧ "Jane Doe" ≠ "_No response_" ∧ strip "Jane Doe" = "Jane Doe" ∧
  no_newline "Jane Doe" = true ∧ occurs_in "Jane Doe" body.
Proof.
  intros body.
  assert (Hrun : extract_contributor_name_from_issue_body body = Some "Jane Doe")
    by (by vm_compute).
  split; [exact Hrun|].
  exact (extract_contributor_name_safe body "Jane Doe" Hrun).
Defined.

(** ** What the extractor returns *)

Section ExtractorSound.
Import Re.

Lemma occurs_in_suffix g t s : occurs_in g s → occurs_in g (t +:+ s).
Proof. intros (x & y & ->). exists (t +:+ x), y. by rewrite append_assoc. Qed.

(** Group 1 is what it was, or a piece of the text from where the
    expression starts. *)
Lemma run_group1 r : ∀ st k m,
  run r st k = Some m →
  ∃ t st', rest st = t +:+ rest st' ∧ pos st' = (pos st + String.length t)%nat ∧
           (group1 st' = group1 st ∨ ∃ g, group1 st' = Some g ∧ occurs_in g (rest st)) ∧
           k st' = Some m.
Proof.
  induction r as [|items|r1 IH1 r2 IH2|r1 IH1 r2 IH2|greedy lo hi items|r IH|r IH| |];
    intros st k m Hrun;
    try (apply run_consumes in Hrun as (t & st' & ? & ? & Hg & ?);
         exists t, st'; split_and!; [done|done|left; by apply Hg|done]).
  - simpl in Hrun.
    destruct (IH1 _ _ _ Hrun) as (t1 & st1 & Hr1 & Hp1 & Hg1 & Hk1).
    destruct (IH2 _ _ _ Hk1) as (t2 & st2 & Hr2 & Hp2 & Hg2 & Hk2).
    exists (t1 +:+ t2), st2. split_and!; [| | |done].
    + by rewrite Hr1, Hr2, append_assoc.
    + rewrite append_length. lia.
    + destruct Hg2 as [-> | (g & ? & Hocc)]; [done|]. right. exists g. split; [done|].
      rewrite Hr1. by apply occurs_in_suffix.
  - simpl in Hrun. destruct (run r1 st k) as [m'|] eqn:H1.
    + injection Hrun as ->. by apply IH1.
    + by apply IH2.
  - simpl in Hrun. destruct (IH _ _ _ Hrun) as (t & st' & Hr & Hp & _ & Hk).
    eexists t, (MState (pos st') (rest st') _). split_and!; [done|done| |exact Hk].
    right. eexists. split; [done|]. rewrite Hp, Hr.
    replace (pos st + String.length t - pos st)%nat with (String.length t) by lia.
    rewrite substring_prefix. exists "", (rest st'). by rewrite append_nil_l.
  - simpl in Hrun. destruct (run r st Some) as [st1|] eqn:Hla; [|done].
    destruct (IH _ _ _ Hla) as (_ & st' & _ & _ & Hg & [= ->]).
    exists "", (MState (pos st) (rest st) (group1 st1)).
    split_and!; simpl; [done|lia|done|done].
Qed.

Lemma match_at_group1 r p s m :
  match_at r p s = Some m → occurs_in (group_1 m) s.
Proof.
  unfold match_at. destruct (run r (MState p s None) Some) as [st|] eqn:Hrun; [|done].
  intros [= <-]. unfold group_1. cbn [m_group1].
  apply run_group1 in Hrun as (_ & st' & _ & _ & Hg & [= ->]). cbn [group1 rest] in Hg.
  destruct Hg as [-> | (g & -> & Hocc)]; [|done].
  exists "", s. by rewrite !append_nil_l.
Qed.

Lemma search_group1 r s m : search r s = Some m → occurs_in (group_1 m) s.
Proof.
  intros (pre & s' & -> & Hm)%search_from_sound.
  apply occurs_in_suffix. by eapply match_at_group1.
Qed.

Lemma finditer_group1 r s m : m ∈ finditer r s → occurs_in (group_1 m) s.
Proof.
  intros (pre & s' & -> & Hm)%finditer_from_sound.
  apply occurs_in_suffix. by eapply match_at_group1.
Qed.

Lemma re_search_group1 pattern s m :
  re_search pattern s = Some m → occurs_in (strip (group_1 m)) s.
Proof.
  unfold re_search. destruct (ReSyntax.compile pattern) as [r|]; [|done].
  intros Hm%search_group1. eapply occurs_in_trans; [apply strip_occurs_in | done].
Qed.

(** What the extractor returns is a piece of the body, without blanks at
    its ends. *)
Theorem extract_json_stripped_part (body json : string) :
  Schema.extract_json_from_issue_body body = Some json →
  strip json = json ∧ occurs_in json body.
Proof.
  unfold Schema.extract_json_from_issue_body, Schema.try_codeblock, Schema.try_raw.
  destruct (re_search Schema.pattern_codeblock body) as [m|] eqn:H1.
  { intros [= <-]. split; [apply strip_idem | by apply re_search_group1 in H1]. }
  destruct (re_search Schema.pattern_raw body) as [m|] eqn:H2.
  { intros [= <-]. split; [apply strip_idem | by apply re_search_group1 in H2]. }
  unfold Schema.try_any. intros Hhd.
  assert (json ∈ (λ m, strip (group_1 m)) <$> re_finditer Schema.pattern_any body) as Hin.
  { destruct (filter _ _) as [|x l] eqn:Hf; [done|]. injection Hhd as ->.
    assert (json ∈ json :: l) as Hin by left. rewrite <- Hf in Hin.
    by apply list_elem_of_filter in Hin as [_ ?]. }
  apply list_elem_of_fmap in Hin as (m & -> & Hm).
  split; [apply strip_idem|].
  unfold re_finditer in Hm. rewrite compile_pattern_any in Hm.
  apply finditer_group1 in Hm. eapply occurs_in_trans; [apply strip_occurs_in | done].
Qed.

Lemma extract_json_stripped_part_witness :
  let body := "### Submission JSON" +:+ NL +:+ NL +:+ "```json" +:+ NL +:+ "  {}  "
              +:+ NL +:+ "```" in
  Schema.extract_json_from_issue_body body = Some "{}" ∧
  strip "{}" = "{}" ∧ occurs_in "{}" body.
Proof.
  intros body.
  assert (Hrun : Schema.extract_json_from_issue_body body = Some "{}") by (by vm_compute).
  split; [exact Hrun|].
  exact (extract_json_stripped_part body "{}" Hrun).
Defined.

(** *** Without a fenced block *)

Lemma rstrip_last s c : isspace c = false → rstrip (s +:+ String c "") = s +:+ String c "".
Proof.
  intros Hc. induction s as [|c' s IH].
  - simpl. by rewrite Hc.
  - rewrite append_cons. simpl. rewrite IH. by destruct s.
Qed.

Lemma endswith_last s c c' : endswith (s +:+ String c "") c' = Ascii.eqb c c'.
Proof.
  induction s as [|c0 s IH]; [done|]. rewrite append_cons. cbn [endswith].
  rewrite IH. by destruct s.
Qed.

(** Where the second pattern matches, group 1 goes from an opening bracket
    to a closing one. *)
Lemma raw_match p s m :
  match_at raw_regex p s = Some m →
  ∃ c1 mid c2, m_group1 m = Some (String c1 (mid +:+ String c2 "")) ∧
               in_set [SChar "["; SChar "{"] c1 = true ∧
               in_set [SChar "]"; SChar "}"] c2 = true.
Proof.
  unfold match_at.
  destruct (run raw_regex (MState p s None) Some) as [st|] eqn:Hrun; [|done].
  intros [= <-]. cbn [m_group1].
  unfold raw_regex in Hrun.
  set (L := Lookahead _) in Hrun.
  change (word "### Submission JSON" ++ [spaces; nl; spaces; bracketed; L])
    with ((word "### Submission JSON" ++ [spaces; nl; spaces]) ++ [bracketed; L]) in Hrun.
  apply run_seq_app in Hrun as (t & st1 & _ & _ & _ & Hrun); [|done].
  rewrite run_seq_cons in Hrun. unfold bracketed in Hrun.
  cbn [seq] in Hrun. unfold opening_bracket, closing_bracket, anything_lazy in Hrun.
  cbn [run] in Hrun.
  destruct (rest st1) as [|c1 r1] eqn:Hrest; [done|].
  destruct (in_set [SChar "["; SChar "{"] c1) eqn:Hc1; [|done].
  cbn [pos rest group1] in Hrun.
  apply repeat_run_sound in Hrun as (a & b & -> & _ & _ & Hk).
  cbn [pos rest group1] in Hk.
  destruct b as [|c2 r2]; [done|].
  destruct (in_set [SChar "]"; SChar "}"] c2) eqn:Hc2; [|done].
  cbn [pos rest group1] in Hk.
  apply run_consumes in Hk as (_ & st3 & _ & _ & Hg & [= ->]).
  cbn [group1] in Hg. rewrite Hg by done.
  exists c1, a, c2. split; [|done]. f_equal.
  replace (S (S (pos st1) + String.length a) - pos st1)%nat
    with (String.length (String c1 (a +:+ String c2 ""))) by (simpl; rewrite append_length; simpl; lia).
  replace (String c1 (a +:+ String c2 r2)) with (String c1 (a +:+ String c2 "") +:+ r2)
    by (by rewrite append_cons, append_assoc).
  apply substring_prefix.
Qed.

Lemma bracket_not_space c :
  in_set [SChar "["; SChar "{"] c = true ∨ in_set [SChar "]"; SChar "}"] c = true →
  isspace c = false.
Proof. destruct c as [[] [] [] [] [] [] [] []]; vm_compute; intros [?|?]; done. Qed.

(** When no fenced block is found, what the extractor returns starts with
    an opening bracket and ends with a closing one; when the second pattern
    does not match either, the two are of the same kind. *)
Theorem extract_json_bracketed (body json : string) :
  Schema.try_codeblock body = None →
  Schema.extract_json_from_issue_body body = Some json →
  (startswith json "{" || startswith json "[") && (endswith json "}" || endswith json "]") = true ∧
  (Schema.try_raw body = None → Schema.looks_like_json json = true).
Proof.
  unfold Schema.extract_json_from_issue_body. intros ->.
  destruct (Schema.try_raw body) as [raw|] eqn:Hraw.
  - intros [= <-]. split; [|done].
    unfold Schema.try_raw, re_search in Hraw. rewrite compile_pattern_raw in Hraw.
    destruct (search raw_regex body) as [m|] eqn:Hm; [|done]. injection Hraw as <-.
    apply search_from_sound in Hm as (pre & s' & _ & Hm).
    apply raw_match in Hm as (c1 & mid & c2 & Hg & Hc1 & Hc2).
    unfold group_1. rewrite Hg. cbn [default from_option]. unfold id.
    unfold strip. cbn [lstrip]. rewrite (bracket_not_space c1) by by left.
    rewrite <- append_cons, rstrip_last by (apply bracket_not_space; by right).
    rewrite !endswith_last. rewrite append_cons. cbn [startswith].
    unfold in_set in Hc1, Hc2. simpl in Hc1, Hc2. rewrite !orb_false_r in Hc1, Hc2.
    by rewrite (orb_comm (Ascii.eqb c1 "{")), Hc1, (orb_comm (Ascii.eqb c2 "}")), Hc2.
  - unfold Schema.try_any. intros Hhd%head_filter_Some.
    split; [|done]. unfold Schema.looks_like_json in Hhd.
    destruct (startswith json "{"), (startswith json "["),
      (endswith json "}"), (endswith json "]"); done.
Qed.
End ExtractorSound.

Lemma extract_json_bracketed_witness :
  let body := "### Submission JSON" +:+ NL +:+ NL +:+ "{1, 2]" in
  Schema.try_codeblock body = None ∧
  Schema.extract_json_from_issue_body body = Some "{1, 2]" ∧
  (startswith "{1, 2]" "{" || startswith "{1, 2]" "[") &&
  (endswith "{1, 2]" "}" || endswith "{1, 2]" "]") = true.
Proof.
  intros body.
  assert (H1 : Schema.try_codeblock body = None) by (by vm_compute).
  assert (H2 : Schema.extract_json_from_issue_body body = Some "{1, 2]") by (by vm_compute).
  split; [exact H1|]. split; [exact H2|].
  exact (proj1 (extract_json_bracketed body "{1, 2]" H1 H2)).
Defined.

(** ** Reading the declared tags *)

(** [get_existing_tag_definitions] reads [properties.tags.properties] with
    defaults: what is there is returned as it is, a missing key gives the
    empty dictionary, and the only exception is [AttributeError], for a
    value on the way that is not a dictionary. *)
Theorem get_existing_tag_definitions_outcome (schema : json) :
  (∀ d, json_at ["properties"; "tags"; "properties"] schema = Some d →
        get_existing_tag_definitions schema = Ok d) ∧
  (∀ d, get_existing_tag_definitions schema = Ok d →
        json_at ["properties"; "tags"; "properties"] schema = Some d ∨ d = JObject []) ∧
  (∀ e, get_existing_tag_definitions schema = Raise e → e = AttributeError).
Proof.
  unfold get_existing_tag_definitions.
  destruct schema as [| | | | | |kvs]; simpl;
    try (split_and!; [done | done | by intros e [= <-]]).
  destruct (dict_get "properties" kvs) as [[| | | | | |props]|]; simpl;
    try (split_and!; [done | done | by intros e [= <-]]);
    [|split_and!; [done | intros d [= <-]; by right | done]].
  destruct (dict_get "tags" props) as [[| | | | | |tags]|]; simpl;
    try (split_and!; [done | done | by intros e [= <-]]);
    [|split_and!; [done | intros d [= <-]; by right | done]].
  destruct (dict_get "properties" tags) as [d'|]; simpl.
  - split_and!; [by intros d [= <-] | intros d [= <-]; by left | done].
  - split_and!; [done | intros d [= <-]; by right | done].
Qed.

Lemma get_existing_tag_definitions_outcome_witness :
  get_existing_tag_definitions
    (JObject [("properties",
               JObject [("tags", JObject [("properties", JObject [("a", JObject [])])])])])
  = Ok (JObject [("a", JObject [])]) ∧
  get_existing_tag_definitions (JObject [("properties", JStr "x")]) = Raise AttributeError.
Proof.
  split.
  - by apply (get_existing_tag_definitions_outcome
                (JObject [("properties",
                   JObject [("tags", JObject [("properties", JObject [("a", JObject [])])])])])).
  - destruct (get_existing_tag_definitions (JObject [("properties", JStr "x")])) as [d|e] eqn:H;
      [by vm_compute in H|].
    f_equal.
    by apply (get_existing_tag_definitions_outcome (JObject [("properties", JStr "x")])).
Defined.
